(** * Values of the runtime: equality, ordering, hashing, printing

    A shallow embedding of [src/value.c] (the value contract the compiler
    core consumes) and of the error cell declared in [src/core/compile.h].

    Platform conventions fixed by the embedding: [uint32_t] is 32 bits wide,
    pointers and [double] are 64 bits wide, and objects are laid out
    little-endian, so that the [uint32_t] member of a union overlays the
    low word of the other member. *)

From Stdlib Require Import ZArith Lia List Bool.
From Stdlib Require Import Strings.Byte Strings.String Floats.SpecFloat.
From stdpp Require Import base option gmap.

Local Open Scope Z_scope.

(** ** Data model *)

(** The type tags switched on by every function of [value.c]. *)
Inductive ValueType : Set :=
  | TYPE_NIL
  | TYPE_BOOLEAN
  | TYPE_NUMBER
  | TYPE_ARRAY
  | TYPE_FORM
  | TYPE_STRING
  | TYPE_SYMBOL
  | TYPE_BYTEBUFFER
  | TYPE_CFUNCTION
  | TYPE_FUNCTION
  | TYPE_DICTIONARY
  | TYPE_FUNCDEF
  | TYPE_FUNCENV
  | TYPE_THREAD.

#[global] Instance ValueType_eq_dec : EqDecision ValueType.
Proof. solve_decision. Defined.

(** Addresses; [NULL] is address zero. *)
Definition pointer : Set := Z.
Definition NULL : pointer := 0.

(** A [Number] is an IEEE-754 binary64, kept as its 64-bit pattern. *)
Definition Number : Set := Z.

(** [Value] is a tag together with a union; the constructor fixes which
    member of the union is live. All the pointer members of the union
    ([string], [array], [buffer], [func], [pointer], ...) share storage. *)
Inductive Value : Set :=
  | VNil
  | VBoolean (boolean : bool)
  | VNumber (number : Number)
  | VArray (array : pointer)
  | VForm (array : pointer)
  | VString (string : pointer)
  | VSymbol (string : pointer)
  | VByteBuffer (buffer : pointer)
  | VCFunction (cfunction : pointer)
  | VFunction (func : pointer)
  | VDictionary (dict : pointer)
  | VFuncDef (funcdef : pointer)
  | VFuncEnv (funcenv : pointer)
  | VThread (array : pointer).

(** [x.type] *)
Definition type (x : Value) : ValueType :=
  match x with
  | VNil => TYPE_NIL
  | VBoolean _ => TYPE_BOOLEAN
  | VNumber _ => TYPE_NUMBER
  | VArray _ => TYPE_ARRAY
  | VForm _ => TYPE_FORM
  | VString _ => TYPE_STRING
  | VSymbol _ => TYPE_SYMBOL
  | VByteBuffer _ => TYPE_BYTEBUFFER
  | VCFunction _ => TYPE_CFUNCTION
  | VFunction _ => TYPE_FUNCTION
  | VDictionary _ => TYPE_DICTIONARY
  | VFuncDef _ => TYPE_FUNCDEF
  | VFuncEnv _ => TYPE_FUNCENV
  | VThread _ => TYPE_THREAD
  end.

(** [x.data.boolean]; reading a member that is not live yields nothing. *)
Definition data_boolean (x : Value) : option bool :=
  match x with VBoolean b => Some b | _ => None end.

(** [x.data.number] *)
Definition data_number (x : Value) : option Number :=
  match x with VNumber n => Some n | _ => None end.

(** Any of the pointer members: [x.data.string], [x.data.array],
    [x.data.pointer] and their siblings. *)
Definition data_pointer (x : Value) : option pointer :=
  match x with
  | VNil | VBoolean _ | VNumber _ => None
  | VArray p | VForm p | VString p | VSymbol p | VByteBuffer p
  | VCFunction p | VFunction p | VDictionary p | VFuncDef p
  | VFuncEnv p | VThread p => Some p
  end.

(** *** Strings in memory

    A string is a block holding two [uint32_t] header words followed by the
    characters; the value's pointer addresses the first character. The
    block is recorded under its base address. [chars] are the characters
    counted by the size word, [slack] whatever the block holds after them. *)
Record VStringBlock : Set := mkVString {
  hash_word : Z;
  chars : list byte;
  slack : list byte
}.

Abbreviation VM := (gmap pointer VStringBlock).

Definition sizeof_uint32_t : Z := 4.
Definition sizeof_pointer : Z := 8.

(** Modelled from the spec: [value.h] is missing; the header accessors
    [VStringRaw], [VStringSize] and [VStringHash] are taken from the way
    [LoadCString] lays a string out (the data pointer is the block base
    advanced by two [uint32_t]) and from "string hash memoized in the
    string header". *)
Definition VStringRaw (s : pointer) : pointer := s - 2 * sizeof_uint32_t.

Definition VStringSize (b : VStringBlock) : Z := Z.of_nat (length (chars b)).

Definition VStringHash (b : VStringBlock) : Z := hash_word b.

(** [VStringHash(s) = v] *)
Definition set_VStringHash (v : Z) (b : VStringBlock) : VStringBlock :=
  {| hash_word := v; chars := chars b; slack := slack b |}.

Definition uint32 (z : Z) : Z := z mod 2 ^ 32.

Definition byte_val (c : byte) : Z := Z.of_N (Byte.to_N c).

(** ** [djb2] *)

(** One turn of the loop: [hash = (hash << 5) + hash + *str++]. *)
Definition djb2_step (hash : Z) (c : byte) : Z :=
  uint32 (Z.shiftl hash 5 + hash + byte_val c).

(** The loop over the characters between [str] and [end]. *)
Definition djb2_bytes (cs : list byte) : Z := fold_left djb2_step cs 5381.

Definition djb2 (vm : VM) (str : pointer) : option Z :=
  b ← vm !! VStringRaw str;
  Some (djb2_bytes (chars b)).

(** ** [ValueHash] *)

(** The word read back from [union { uint32_t hash; Number number; }] and
    from [union { void * pointer; uint32_t hash; }]. *)
Definition low_word (bits : Z) : Z := bits mod 2 ^ 32.

(** Returns the hash together with the memory it leaves behind: a string
    whose header word is zero gets its hash written there. *)
Definition ValueHash (vm : VM) (x : Value) : option (Z * VM) :=
  match type x with
  | TYPE_NIL => Some (0, vm)
  | TYPE_BOOLEAN =>
      b ← data_boolean x;
      Some (Z.b2z b, vm)
  | TYPE_NUMBER =>
      n ← data_number x;
      Some (low_word n, vm)
  | TYPE_SYMBOL | TYPE_STRING =>
      s ← data_pointer x;
      b ← vm !! VStringRaw s;
      if negb (VStringHash b =? 0) then Some (VStringHash b, vm)
      else
        d ← djb2 vm s;
        Some (d, <[VStringRaw s := set_VStringHash d b]> vm)
  | TYPE_ARRAY | TYPE_FORM | TYPE_BYTEBUFFER | TYPE_CFUNCTION
  | TYPE_DICTIONARY | TYPE_FUNCTION | TYPE_FUNCDEF | TYPE_FUNCENV
  | TYPE_THREAD =>
      p ← data_pointer x;
      Some (low_word p, vm)
  end.

(** ** [ValueEqual] *)

(** [x.data.number == y.data.number] and [x.data.number > y.data.number]
    on binary64 patterns, through the IEEE-754 reading of the pattern. *)
Definition Number_decode (n : Number) : spec_float :=
  let s := Z.odd (n / 2 ^ 63) in
  let e := (n / 2 ^ 52) mod 2 ^ 11 in
  let m := n mod 2 ^ 52 in
  if e =? 0 then
    match m with
    | Zpos p => S754_finite s p (-1074)
    | _ => S754_zero s
    end
  else if e =? 2047 then
    if m =? 0 then S754_infinity s else S754_nan
  else S754_finite s (Z.to_pos (m + 2 ^ 52)) (e - 1075).

Definition Number_eq (a b : Number) : bool :=
  SFeqb (Number_decode a) (Number_decode b).

Definition Number_gt (a b : Number) : bool :=
  SFltb (Number_decode b) (Number_decode a).

Definition Number_isnan (n : Number) : bool :=
  match Number_decode n with S754_nan => true | _ => false end.

(** [strncmp] of the C library on two character arrays: at most [n]
    characters are compared and nothing after a NUL character is. *)
Fixpoint strncmp_bytes (s1 s2 : list byte) : Z :=
  match s1, s2 with
  | c1 :: t1, c2 :: t2 =>
      if negb (Byte.eqb c1 c2) then byte_val c1 - byte_val c2
      else if Byte.eqb c1 x00 then 0
      else strncmp_bytes t1 t2
  | _, _ => 0
  end.

Definition strncmp (s1 s2 : list byte) (n : Z) : Z :=
  strncmp_bytes (take (Z.to_nat n) s1) (take (Z.to_nat n) s2).

(** Returns the result together with the memory left behind by the two
    calls of [ValueHash]. *)
Definition ValueEqual (vm : VM) (x y : Value) : option (Z * VM) :=
  if negb (bool_decide (type x = type y)) then Some (0, vm)
  else
    match type x with
    | TYPE_NIL => Some (1, vm)
    | TYPE_BOOLEAN =>
        bx ← data_boolean x;
        by' ← data_boolean y;
        Some (Z.b2z (Bool.eqb bx by'), vm)
    | TYPE_NUMBER =>
        nx ← data_number x;
        ny ← data_number y;
        Some (Z.b2z (Number_eq nx ny), vm)
    | TYPE_STRING | TYPE_SYMBOL =>
        sx ← data_pointer x;
        sy ← data_pointer y;
        if sx =? sy then Some (1, vm)
        else
          '(hx, vm1) ← ValueHash vm x;
          '(hy, vm2) ← ValueHash vm1 y;
          bx ← vm2 !! VStringRaw sx;
          by' ← vm2 !! VStringRaw sy;
          if negb (hx =? hy) || negb (VStringSize bx =? VStringSize by')
          then Some (0, vm2)
          else if strncmp (chars bx) (chars by') (VStringSize bx) =? 0
          then Some (1, vm2)
          else Some (0, vm2)
    | TYPE_ARRAY | TYPE_FORM | TYPE_BYTEBUFFER | TYPE_CFUNCTION
    | TYPE_DICTIONARY | TYPE_FUNCTION | TYPE_FUNCDEF | TYPE_FUNCENV
    | TYPE_THREAD =>
        px ← data_pointer x;
        py ← data_pointer y;
        Some (Z.b2z (px =? py), vm)
    end.

(** ** [ValueCompare] *)

(** The [for] loop over the first [len] characters of both strings, [len]
    the smaller of the two sizes: [Some r] when the loop returns [r],
    [None] when it runs to its end. *)
Fixpoint compare_loop (xs ys : list byte) : option Z :=
  match xs, ys with
  | a :: xs', b :: ys' =>
      if Byte.eqb a b then compare_loop xs' ys'
      else if byte_val a <? byte_val b then Some 1
      else Some (-1)
  | _, _ => None
  end.

Section Compare.

(** The numeric value of each enumerator: [value.h], which declares the
    enumeration, is missing, so the numbering is left open. The
    enumerators are the labels of one [switch] and therefore distinct, so
    [x.type == y.type] is equality of tags. *)
Variable type_tag : ValueType -> Z.

Definition ValueCompare (vm : VM) (x y : Value) : option Z :=
  if bool_decide (type x = type y) then
    match type x with
    | TYPE_NIL => Some 0
    | TYPE_BOOLEAN =>
        bx ← data_boolean x;
        by' ← data_boolean y;
        if Bool.eqb bx by' then Some 0
        else Some (if bx then 1 else -1)
    | TYPE_NUMBER =>
        nx ← data_number x;
        ny ← data_number y;
        if Number_eq nx ny then Some 0
        else Some (if Number_gt nx ny then 1 else -1)
    | TYPE_STRING | TYPE_SYMBOL =>
        sx ← data_pointer x;
        sy ← data_pointer y;
        if sx =? sy then Some 0
        else
          bx ← vm !! VStringRaw sx;
          by' ← vm !! VStringRaw sy;
          let xlen := VStringSize bx in
          let ylen := VStringSize by' in
          match compare_loop (chars bx) (chars by') with
          | Some r => Some r
          | None =>
              if xlen =? ylen then Some 0
              else Some (if xlen <? ylen then -1 else 1)
          end
    | TYPE_ARRAY | TYPE_FORM | TYPE_BYTEBUFFER | TYPE_CFUNCTION
    | TYPE_FUNCTION | TYPE_DICTIONARY | TYPE_FUNCDEF | TYPE_FUNCENV
    | TYPE_THREAD =>
        px ← data_pointer x;
        py ← data_pointer y;
        if px =? py then Some 0
        else Some (if px >? py then 1 else -1)
    end
  else if type_tag (type x) <? type_tag (type y) then Some (-1)
  else Some 1.

End Compare.

(** ** Allocation and [ValueToString] *)

(** The address just past every block of the memory. *)
Definition heap_top (vm : VM) : pointer :=
  map_fold (fun base _ top => Z.max (base + 1) top) 1 vm.

(** Cleared storage of [n] bytes. *)
Definition cleared (n : Z) : list byte := repeat x00 (Z.to_nat n).

(** Modelled from the spec: [VMAlloc] is declared in the missing [vm.h];
    following "allocator [alloc(n)] returning cleared memory", it hands out
    the base of a new block of [size] cleared bytes: both header words are
    zero and the bytes after the header are zero. *)
Definition VMAlloc (vm : VM) (size : Z) : pointer * VM :=
  let base := heap_top vm in
  (base,
   <[base := {| hash_word := 0;
                chars := [];
                slack := cleared (size - 2 * sizeof_uint32_t) |}]> vm).

(** [memcpy(dst, src, n)] on the bytes after the header. *)
Definition memcpy (dst src : list byte) (n : Z) : list byte :=
  take (Z.to_nat n) src ++ drop (Z.to_nat n) dst.

(** The block whose header holds [hash] and [size] and whose bytes after
    the header are [payload]. *)
Definition block_of (hash size : Z) (payload : list byte) : VStringBlock :=
  {| hash_word := hash;
     chars := take (Z.to_nat size) payload;
     slack := drop (Z.to_nat size) payload |}.

Definition LoadCString (vm : VM) (string : list byte) (len : Z)
  : pointer * VM :=
  let '(base, vm1) := VMAlloc vm (len + 2 * sizeof_uint32_t) in
  let data := base + 2 * sizeof_uint32_t in
  let payload := memcpy (cleared len) string len in
  (data, <[VStringRaw data := block_of 0 len payload]> vm1).

(** [strlen]: the number of characters before the first NUL. *)
Fixpoint strlen (s : list byte) : Z :=
  match s with
  | [] => 0
  | c :: t => if Byte.eqb c x00 then 0 else 1 + strlen t
  end.

(** The [size_t] that [strlen] returns is converted to the [uint32_t]
    parameter [len] of [LoadCString]. *)
Definition ValueLoadCString (vm : VM) (string : list byte) : Value * VM :=
  let '(data, vm1) := LoadCString vm string (uint32 (strlen string)) in
  (VString data, vm1).

Definition HEX_CHARACTERS : list byte :=
  list_byte_of_string "0123456789ABCDEF".

Definition HEX (i : Z) : byte := nth (Z.to_nat i) HEX_CHARACTERS x00.

(** [buf.bytes[i]]: the [i]-th byte of the object representation of a
    pointer. *)
Definition pointer_byte (p : pointer) (i : nat) : Z :=
  (p / 2 ^ (8 * Z.of_nat i)) mod 256.

(** The two digits written for each byte of the pointer, first byte
    first. *)
Definition pointer_digits (p : pointer) : list byte :=
  flat_map
    (fun i => let b := pointer_byte p i in
              [HEX (Z.shiftr b 4); HEX (Z.land b 15)])
    (seq 0 (Z.to_nat sizeof_pointer)).

(** The header words are not written: they stay as [VMAlloc] left them. *)
Definition StringDescription (vm : VM) (title : list byte) (titlelen : Z)
    (p : pointer) : pointer * VM :=
  let len := uint32 (3 + titlelen + sizeof_pointer * 2) in
  let '(base, vm1) := VMAlloc vm (len + 2 * sizeof_uint32_t) in
  let data := base + 2 * sizeof_uint32_t in
  let written :=
    list_byte_of_string "<" ++ take (Z.to_nat titlelen) title ++
    list_byte_of_string " " ++ pointer_digits p ++
    list_byte_of_string ">" in
  let payload := memcpy (cleared len) written (Z.of_nat (length written)) in
  (data, <[VStringRaw data := block_of 0 0 payload]> vm1).

Section ToString.

(** The characters the C library prints for ["%.17g"]. *)
Variable format_17g : Number -> list byte.

Definition NumberToString (vm : VM) (x : Number) : pointer * VM :=
  let SIZE := 20 in
  let '(base, vm1) := VMAlloc vm (SIZE + 2 * sizeof_uint32_t) in
  let data := base + 2 * sizeof_uint32_t in
  let printed := take (Z.to_nat (SIZE - 1)) (format_17g x) ++ [x00] in
  let payload :=
    memcpy (cleared SIZE) printed (Z.of_nat (length printed)) in
  (data, <[VStringRaw data := block_of 0 (strlen payload) payload]> vm1).

(** The [switch] has a case for every tag, so the [return NULL] that
    follows it has no counterpart here; [None] stands for a read of a
    union member that is not live. *)
Definition ValueToString (vm : VM) (x : Value) : option (pointer * VM) :=
  match type x with
  | TYPE_NIL => Some (LoadCString vm (list_byte_of_string "nil") 3)
  | TYPE_BOOLEAN =>
      b ← data_boolean x;
      if b : bool then Some (LoadCString vm (list_byte_of_string "true") 4)
      else Some (LoadCString vm (list_byte_of_string "false") 5)
  | TYPE_NUMBER =>
      n ← data_number x;
      Some (NumberToString vm n)
  | TYPE_ARRAY =>
      p ← data_pointer x;
      Some (StringDescription vm (list_byte_of_string "array") 5 p)
  | TYPE_FORM =>
      p ← data_pointer x;
      Some (StringDescription vm (list_byte_of_string "form") 4 p)
  | TYPE_STRING | TYPE_SYMBOL =>
      s ← data_pointer x;
      Some (s, vm)
  | TYPE_BYTEBUFFER =>
      p ← data_pointer x;
      Some (StringDescription vm (list_byte_of_string "buffer") 6 p)
  | TYPE_CFUNCTION =>
      p ← data_pointer x;
      Some (StringDescription vm (list_byte_of_string "cfunction") 9 p)
  | TYPE_FUNCTION =>
      p ← data_pointer x;
      Some (StringDescription vm (list_byte_of_string "function") 8 p)
  | TYPE_DICTIONARY =>
      p ← data_pointer x;
      Some (StringDescription vm (list_byte_of_string "dictionary") 10 p)
  | TYPE_FUNCDEF =>
      p ← data_pointer x;
      Some (StringDescription vm (list_byte_of_string "funcdef") 7 p)
  | TYPE_FUNCENV =>
      p ← data_pointer x;
      Some (StringDescription vm (list_byte_of_string "funcenv") 7 p)
  | TYPE_THREAD =>
      p ← data_pointer x;
      Some (StringDescription vm (list_byte_of_string "thread") 6 p)
  end.

End ToString.

(** ** Vocabulary of the statements *)

Definition is_string_at (x : Value) (s : pointer) : Prop :=
  x = VString s \/ x = VSymbol s.

(** The header word of a string is either unset or the hash of its
    characters. *)
Definition hash_word_ok (b : VStringBlock) : Prop :=
  VStringHash b = 0 \/ VStringHash b = djb2_bytes (chars b).

Definition hash_word_okb (b : VStringBlock) : bool :=
  (VStringHash b =? 0) || (VStringHash b =? djb2_bytes (chars b)).

(** Every string header a value refers to is in that state; a value that
    is no string refers to none. *)
Definition hash_fields_ok (vm : VM) (x : Value) : bool :=
  match x with
  | VString s | VSymbol s =>
      match vm !! VStringRaw s with
      | Some b => hash_word_okb b
      | None => false
      end
  | _ => true
  end.

(** The block a string holds once its hash is stored. *)
Definition memoized (b : VStringBlock) : VStringBlock :=
  set_VStringHash (djb2_bytes (chars b)) b.


(** The tags whose values hold nothing but a reference. *)
Definition composite (t : ValueType) : bool :=
  match t with
  | TYPE_ARRAY | TYPE_FORM | TYPE_BYTEBUFFER | TYPE_CFUNCTION
  | TYPE_DICTIONARY | TYPE_FUNCTION | TYPE_FUNCDEF | TYPE_FUNCENV
  | TYPE_THREAD => true
  | _ => false
  end.

(** A number value holding a NaN. *)
Definition is_nan_value (x : Value) : bool :=
  match x with
  | VNumber n => Number_isnan n
  | _ => false
  end.

(** The number branch of [ValueCompare]. *)
Definition Number_compare (a b : Number) : Z :=
  if Number_eq a b then 0 else if Number_gt a b then 1 else -1.

(** Every string a value refers to is in memory. *)
Definition readable (vm : VM) (x : Value) : bool :=
  match x with
  | VString s | VSymbol s => bool_decide (is_Some (vm !! VStringRaw s))
  | _ => true
  end.

(** A string or symbol value that holds the null pointer. *)
Definition null_string (x : Value) : bool :=
  match x with
  | VString s | VSymbol s => s =? NULL
  | _ => false
  end.

(** The characters of the string a pointer addresses. *)
Definition string_at (vm : VM) (s : pointer) : option (list byte) :=
  chars <$> vm !! VStringRaw s.

(** *** Sample data

    One numbering of the tags, in the order of the cases of
    [ValueToString], and a few memories and numbers to try the functions
    on. *)
Definition sample_type_tag (t : ValueType) : Z :=
  match t with
  | TYPE_NIL => 0
  | TYPE_BOOLEAN => 1
  | TYPE_NUMBER => 2
  | TYPE_ARRAY => 3
  | TYPE_FORM => 4
  | TYPE_STRING => 5
  | TYPE_SYMBOL => 6
  | TYPE_BYTEBUFFER => 7
  | TYPE_CFUNCTION => 8
  | TYPE_FUNCTION => 9
  | TYPE_DICTIONARY => 10
  | TYPE_FUNCDEF => 11
  | TYPE_FUNCENV => 12
  | TYPE_THREAD => 13
  end.

(** A string block with its hash not yet computed, as [LoadCString]
    makes it. *)
Definition fresh_string (s : String.string) : VStringBlock :=
  {| hash_word := 0; chars := list_byte_of_string s; slack := [] |}.

(** The string ["hi"] twice, at addresses 108 and 208, and the same
    memory once both hashes are stored. *)
Definition vm_twins : VM :=
  <[100 := fresh_string "hi"]> (<[200 := fresh_string "hi"]> ∅).

Definition vm_twins_hashed : VM :=
  <[100 := memoized (fresh_string "hi")]>
    (<[200 := memoized (fresh_string "hi")]> ∅).

(** ["a"] at address 108 and ["b"] at address 208. *)
Definition vm_a_b : VM :=
  <[100 := fresh_string "a"]> (<[200 := fresh_string "b"]> ∅).

(** Two strings of three characters that start with a NUL character and
    differ after it, at addresses 108 and 208. *)
Definition nul_aa : list byte := x00 :: list_byte_of_string "aa".
Definition nul_b_at : list byte := x00 :: list_byte_of_string "b@".

Definition vm_nul : VM :=
  <[100 := {| hash_word := 0; chars := nul_aa; slack := [] |}]>
    (<[200 := {| hash_word := 0; chars := nul_b_at; slack := [] |}]> ∅).

(** A stand-in for the C library's number printer. *)
Definition sample_format (n : Number) : list byte :=
  list_byte_of_string "-1.2345678901234567e+100".

(** The binary64 patterns of [1.0], of a quiet NaN, and of the two
    zeros. *)
Definition number_one : Number := 0x3FF0000000000000.
Definition number_nan : Number := 0x7FF8000000000000.
Definition number_zero : Number := 0.
Definition number_neg_zero : Number := 0x8000000000000000.

(** ** The compiler's error cell ([src/core/compile.h])

    [compile.h] declares the compiler state and its operations; the bodies
    live in a file that is not part of the sources, so every operation of
    this module is modelled from the specification. *)
Module Compile.

(** Modelled from the spec: [dst.h] is missing; the value the compiler
    lowers is the tagged sum of the value contract. *)
Abbreviation Dst := Value.

Definition DST_SLOT_CONSTANT : Z := 0x10000.
Definition DST_SLOT_NAMED : Z := 0x20000.
Definition DST_SLOT_MUTABLE : Z := 0x40000.
Definition DST_SLOT_REF : Z := 0x80000.
Definition DST_SLOT_RETURNED : Z := 0x100000.

Definition DST_FOPTS_TAIL : Z := 0x10000.
Definition DST_FOPTS_HINT : Z := 0x20000.
Definition DST_FOPTS_DROP : Z := 0x40000.

(** [struct DstSlot] *)
Record DstSlot : Set := mkSlot {
  index : Z;
  envindex : Z;
  slot_flags : Z;
  constant : Dst
}.

(** Modelled from the spec: [DstCompileResult] is declared in the missing
    [dst.h]; it is the "single-error cell" that holds, once an error is
    recorded, "{ sourcemap_pointer, message }". *)
Inductive DstCompileResult : Set :=
  | DST_COMPILE_OK
  | DST_COMPILE_ERROR (sourcemap : pointer) (message : list byte).

(** [struct DstCompiler], with the scope stack left out: no operation
    modelled here reads it. *)
Record DstCompiler : Set := mkCompiler {
  recursion_guard : Z;
  buffer : list Z;
  mapbuffer : list pointer;
  env : Dst;
  result : DstCompileResult
}.

(** [struct DstFopts]; the compiler it points to is passed alongside. *)
Record DstFopts : Set := mkFopts {
  x : Dst;
  sourcemap : pointer;
  flags : Z;
  hint : DstSlot
}.

Definition set_result (c : DstCompiler) (r : DstCompileResult)
  : DstCompiler :=
  {| recursion_guard := recursion_guard c;
     buffer := buffer c;
     mapbuffer := mapbuffer c;
     env := env c;
     result := r |}.

(** Modelled from the spec: [dstc_iserr], "check error". *)
Definition dstc_iserr (c : DstCompiler) : bool :=
  match result c with
  | DST_COMPILE_ERROR _ _ => true
  | DST_COMPILE_OK => false
  end.

(** Modelled from the spec: [dstc_error], "store an error"; "first error
    wins". *)
Definition dstc_error (c : DstCompiler) (sourcemap : pointer)
    (m : list byte) : DstCompiler :=
  if dstc_iserr c then c
  else set_result c (DST_COMPILE_ERROR sourcemap m).

(** Modelled from the spec: [dstc_cerror] is [dstc_error] on a C
    string. *)
Definition dstc_cerror (c : DstCompiler) (sourcemap : pointer)
    (m : String.string) : DstCompiler :=
  dstc_error c sourcemap (list_byte_of_string m).

(** Modelled from the spec: [dstc_cslot], a slot that "carries a literal
    value; no runtime location yet". *)
Definition dstc_cslot (v : Dst) : DstSlot :=
  {| index := -1; envindex := 0;
     slot_flags := DST_SLOT_CONSTANT; constant := v |}.

(** Modelled from the spec: [dstc_emit] "appends a 32-bit word to the
    instruction buffer and the current form's source-map pointer to the
    parallel map"; after an error "subsequent emissions become
    no-ops". *)
Definition dstc_emit (c : DstCompiler) (sourcemap : pointer) (instr : Z)
  : DstCompiler :=
  if dstc_iserr c then c
  else
    {| recursion_guard := recursion_guard c;
       buffer := buffer c ++ [uint32 instr];
       mapbuffer := mapbuffer c ++ [sourcemap];
       env := env c;
       result := result c |}.

Section Dispatch.

(** The compiled function template, declared in the missing [dst.h]. *)
Variable DstFuncDef : Type.

(** The dispatch rules of the form compiler and the lowering routines
    behind them; they are not part of the sources and are left open. *)
Variable dispatch : DstFopts -> DstCompiler -> DstSlot * DstCompiler.

(** [dstc_pop_funcdef], "pops a function frame and packages" it. *)
Variable dstc_pop_funcdef : DstCompiler -> DstFuncDef.

(** Modelled from the spec: [dstc_value], "dispatch to correct form
    compiler"; after an error "further form compilations return a
    neutral constant slot (nil) and skip emission". *)
Definition dstc_value (opts : DstFopts) (c : DstCompiler)
  : DstSlot * DstCompiler :=
  if dstc_iserr c then (dstc_cslot VNil, c)
  else dispatch opts c.

(** Forms compiled one after the other, as the arguments of a call or
    the body of a [do] are. *)
Fixpoint compile_forms (forms : list DstFopts) (c : DstCompiler)
  : list DstSlot * DstCompiler :=
  match forms with
  | [] => ([], c)
  | opts :: rest =>
      let '(s, c1) := dstc_value opts c in
      let '(ss, c2) := compile_forms rest c1 in
      (s :: ss, c2)
  end.

(** Modelled from the spec: what a compilation hands to its caller,
    "a pure function from (value, environment) to ([FuncDef] |
    error)". *)
Definition publish (c : DstCompiler)
  : DstFuncDef + pointer * list byte :=
  match result c with
  | DST_COMPILE_OK => inl (dstc_pop_funcdef c)
  | DST_COMPILE_ERROR sm m => inr (sm, m)
  end.

(** Modelled from the spec: the entry point; the root form is compiled
    in tail position by a fresh compiler. *)
Definition dst_compile (source : Dst) (sourcemap : pointer) (env : Dst)
    (guard : Z) : DstFuncDef + pointer * list byte :=
  let c := {| recursion_guard := guard; buffer := []; mapbuffer := [];
              env := env; result := DST_COMPILE_OK |} in
  let fopts := {| x := source; sourcemap := sourcemap;
                  flags := DST_FOPTS_TAIL;
                  hint := dstc_cslot VNil |} in
  publish (dstc_value fopts c).2.

End Dispatch.

End Compile.


(** *** Sample data for the compiler

    A dispatcher that lowers every form to one instruction and a constant
    slot, a packager that keeps the bytecode, and a compiler that has not
    started yet. *)
Definition sample_dispatch (opts : Compile.DstFopts) (c : Compile.DstCompiler)
  : Compile.DstSlot * Compile.DstCompiler :=
  (Compile.dstc_cslot (Compile.x opts),
   Compile.dstc_emit c (Compile.sourcemap opts) 1).

Definition sample_pop_funcdef (c : Compile.DstCompiler) : list Z :=
  Compile.buffer c.

Definition sample_compiler : Compile.DstCompiler :=
  {| Compile.recursion_guard := 1024;
     Compile.buffer := [7];
     Compile.mapbuffer := [0];
     Compile.env := VNil;
     Compile.result := Compile.DST_COMPILE_OK |}.

Definition sample_fopts (v : Value) : Compile.DstFopts :=
  {| Compile.x := v; Compile.sourcemap := 16; Compile.flags := 0;
     Compile.hint := Compile.dstc_cslot VNil |}.

(** ** Vocabulary of the further properties *)

(** The hash [ValueHash] reads off a string block: the header word when it
    is set, the djb2 hash of the characters otherwise. *)
Definition block_hash (b : VStringBlock) : Z :=
  if VStringHash b =? 0 then djb2_bytes (chars b) else VStringHash b.

(** [vm'] differs from [vm] at most in header words that were zero and
    now hold the djb2 hash of their string. *)
Definition only_memoizes (vm vm' : VM) : Prop :=
  forall a,
    vm' !! a = vm !! a \/
    exists b, vm !! a = Some b /\ VStringHash b = 0 /\
              vm' !! a = Some (memoized b).

(** Every header word of the memory is zero or the hash of its string. *)
Definition heap_ok (vm : VM) : Prop :=
  forall a b, vm !! a = Some b -> hash_word_ok b.

(** ["h"] at address 108 and ["hi"] at address 208. *)
Definition vm_h_hi : VM :=
  <[100 := fresh_string "h"]> (<[200 := fresh_string "hi"]> ∅).

(** No character of the list is NUL. *)
Definition nul_free (cs : list byte) : bool :=
  forallb (fun c => negb (Byte.eqb c x00)) cs.

(** The string a value refers to, if it is one, can be read and holds no
    NUL character. *)
Definition nul_free_value (vm : VM) (x : Value) : bool :=
  match x with
  | VString s | VSymbol s =>
      match vm !! VStringRaw s with
      | Some b => nul_free (chars b)
      | None => false
      end
  | _ => true
  end.

(** What the string branch of [ValueCompare] returns on the characters of
    two strings: the result of the loop, or else the comparison of the
    sizes. *)
Definition string_order (xs ys : list byte) : Z :=
  match compare_loop xs ys with
  | Some r => r
  | None =>
      if Z.of_nat (length xs) =? Z.of_nat (length ys) then 0
      else if Z.of_nat (length xs) <? Z.of_nat (length ys) then -1 else 1
  end.

(** Every header word of the memory fits a [uint32_t]. *)
Definition header_words_32 (vm : VM) : Prop :=
  forall a b, vm !! a = Some b -> 0 <= VStringHash b < 2 ^ 32.

(** The characters of a C string: those before its first NUL. *)
Definition before_nul (s : list byte) : list byte :=
  take (Z.to_nat (strlen s)) s.

(** The position of a character among the hexadecimal digits. *)
Fixpoint index_of (c : byte) (l : list byte) : Z :=
  match l with
  | [] => 0
  | d :: l' => if Byte.eqb c d then 0 else 1 + index_of c l'
  end.

Definition hex_value (c : byte) : Z := index_of c HEX_CHARACTERS.

(** The number spelled by pairs of hexadecimal digits, least significant
    pair first: the reading of what [StringDescription] writes. *)
Fixpoint pointer_of_digits (ds : list byte) : Z :=
  match ds with
  | hi :: lo :: rest =>
      16 * hex_value hi + hex_value lo + 256 * pointer_of_digits rest
  | _ => 0
  end.

(** The characters [ValueLoadCString] stores for a C string: as many of
    its first characters as the length says once it is cut to 32 bits. *)
Definition loaded_chars (s : list byte) : list byte :=
  take (Z.to_nat (uint32 (strlen s))) s.

(** ["hi"] at address 108 with its hash stored, and ["a"] at address 208
    with a header word that was never computed. *)
Definition vm_hi_a : VM :=
  <[100 := memoized (fresh_string "hi")]> (<[200 := fresh_string "a"]> ∅).
(** * Properties *)

(** ** Hashing *)

Lemma set_VStringHash_same b : set_VStringHash (VStringHash b) b = b.
Proof. by destruct b. Qed.

Lemma ValueHash_string_eq vm x s b :
  is_string_at x s ->
  vm !! VStringRaw s = Some b ->
  ValueHash vm x =
    if negb (VStringHash b =? 0) then Some (VStringHash b, vm)
    else Some (djb2_bytes (chars b), <[VStringRaw s := memoized b]> vm).
Proof.
  intros [-> | ->] Hb; cbn; rewrite Hb; cbn;
    destruct (VStringHash b =? 0); cbn; try done;
    unfold djb2; rewrite Hb; done.
Qed.

Lemma ValueHash_string_ok vm x s b :
  is_string_at x s ->
  vm !! VStringRaw s = Some b ->
  hash_word_ok b ->
  ValueHash vm x =
    Some (djb2_bytes (chars b), <[VStringRaw s := memoized b]> vm).
Proof.
  intros Hx Hb Hok. rewrite (ValueHash_string_eq vm x s b Hx Hb).
  destruct (Z.eqb_spec (VStringHash b) 0) as [E | E]; cbn; [done |].
  destruct Hok as [? | Hd]; [done |].
  unfold memoized. rewrite <- Hd, set_VStringHash_same, insert_id; done.
Qed.

Lemma hash_word_ok_memoized b : hash_word_ok (memoized b).
Proof. by right. Qed.

Lemma VStringSize_memoized b : VStringSize (memoized b) = VStringSize b.
Proof. done. Qed.

Lemma chars_memoized b : chars (memoized b) = chars b.
Proof. done. Qed.

Lemma memoized_idemp b : memoized (memoized b) = memoized b.
Proof. done. Qed.

(** C5. A string or symbol whose header word is zero or the djb2 hash of
    its characters hashes to the djb2 hash of its characters; the call
    leaves that hash in the header, in particular when the word was zero;
    and any later call, in any memory that still holds the block the first
    call left, returns the same hash and changes nothing. *)
Theorem ValueHash_string_memoized (vm : VM) (x : Value) (s : pointer)
    (b : VStringBlock) :
  is_string_at x s ->
  vm !! VStringRaw s = Some b ->
  hash_word_ok b ->
  let d := djb2_bytes (chars b) in
  exists vm',
    ValueHash vm x = Some (d, vm') /\
    (VStringHash <$> vm' !! VStringRaw s) = Some d /\
    (chars <$> vm' !! VStringRaw s) = Some (chars b) /\
    (forall a, a <> VStringRaw s -> vm' !! a = vm !! a) /\
    (forall vm2 : VM,
        vm2 !! VStringRaw s = vm' !! VStringRaw s ->
        ValueHash vm2 x = Some (d, vm2)).
Proof.
  intros Hx Hb Hok d. exists (<[VStringRaw s := memoized b]> vm).
  split; [by apply ValueHash_string_ok |].
  rewrite lookup_insert_eq. repeat split; try done.
  - intros a Ha. by rewrite lookup_insert_ne.
  - intros vm2 H2.
    rewrite (ValueHash_string_ok vm2 x s (memoized b) Hx H2
               (hash_word_ok_memoized b)).
    rewrite memoized_idemp, insert_id; done.
Qed.

Lemma ValueHash_string_memoized_witness :
  exists vm',
    ValueHash vm_a_b (VString 108) = Some (177670, vm') /\
    (VStringHash <$> vm' !! VStringRaw 108) = Some 177670.
Proof.
  destruct (ValueHash_string_memoized vm_a_b (VString 108) 108
              (fresh_string "a")) as (vm' & H1 & H2 & _).
  - left; reflexivity.
  - vm_compute; reflexivity.
  - left; reflexivity.
  - exists vm'. exact (conj H1 H2).
Defined.

(** ** Ordering across types *)

Lemma ValueCompare_other_type type_tag vm x y :
  type x <> type y ->
  ValueCompare type_tag vm x y =
    if type_tag (type x) <? type_tag (type y) then Some (-1) else Some 1.
Proof.
  intros Hne. unfold ValueCompare. by rewrite bool_decide_eq_false_2.
Qed.

(** C6. When the tags of [x] and [y] differ as numbers, the comparison is
    [-1] if the tag of [x] is the smaller one and [1] if it is the greater
    one, whatever the two values hold and whatever the memory is. *)
Theorem ValueCompare_by_type_tag (type_tag : ValueType -> Z) (vm : VM)
    (x y : Value) :
  type_tag (type x) <> type_tag (type y) ->
  (type_tag (type x) < type_tag (type y) ->
     ValueCompare type_tag vm x y = Some (-1)) /\
  (type_tag (type x) > type_tag (type y) ->
     ValueCompare type_tag vm x y = Some 1).
Proof.
  intros Hne.
  assert (type x <> type y) as Ht by congruence.
  rewrite (ValueCompare_other_type type_tag vm x y Ht).
  split; intros Hlt.
  - by rewrite (proj2 (Z.ltb_lt _ _)).
  - rewrite (proj2 (Z.ltb_ge _ _)); [done | lia].
Qed.

Lemma ValueCompare_by_type_tag_witness :
  ValueCompare sample_type_tag ∅ (VBoolean true) (VString 0) = Some (-1).
Proof.
  apply (ValueCompare_by_type_tag sample_type_tag ∅ (VBoolean true)
           (VString 0)); vm_compute; [discriminate | reflexivity].
Defined.

(** ** References *)

Lemma composite_data_pointer x :
  composite (type x) = true -> exists p, data_pointer x = Some p.
Proof. destruct x; cbn; try discriminate; eauto. Qed.

(** C4. For two values of the same composite reference type, [ValueEqual]
    returns 1 exactly when both hold the same pointer and [ValueCompare]
    returns 0 exactly when they do; neither reads or writes the memory.
    Arrays and forms go through the same branch: the results for two
    arrays and for two forms holding the same pointers coincide. *)
Theorem composite_equal_by_pointer (type_tag : ValueType -> Z) (vm : VM)
    (x y : Value) (px py : pointer) :
  composite (type x) = true ->
  type x = type y ->
  data_pointer x = Some px ->
  data_pointer y = Some py ->
  (exists r, ValueEqual vm x y = Some (r, vm) /\ (r = 1 <-> px = py)) /\
  (exists c, ValueCompare type_tag vm x y = Some c /\ (c = 0 <-> px = py)) /\
  ValueEqual vm (VArray px) (VArray py) = ValueEqual vm (VForm px) (VForm py) /\
  ValueCompare type_tag vm (VArray px) (VArray py) =
    ValueCompare type_tag vm (VForm px) (VForm py).
Proof.
  intros Hc Ht Hx Hy. repeat split.
  - exists (Z.b2z (px =? py)). split.
    + unfold ValueEqual. rewrite <- Ht, bool_decide_eq_true_2 by done. cbn.
      destruct x; try discriminate Hc; cbn in *; rewrite Hy; cbn;
        by injection Hx as ->.
    + destruct (Z.eqb_spec px py); cbn; split; intros; try done; lia.
  - exists (if px =? py then 0 else if px >? py then 1 else -1). split.
    + unfold ValueCompare. rewrite <- Ht, bool_decide_eq_true_2 by done.
      destruct x; try discriminate Hc; cbn in *; rewrite Hy; cbn;
        injection Hx as ->; by destruct (px =? py).
    + destruct (Z.eqb_spec px py); [done |].
      destruct (px >? py); split; intros; done.
Qed.

Lemma composite_equal_by_pointer_witness :
  (exists r, ValueEqual ∅ (VForm 64) (VForm 64) = Some (r, ∅) /\
             (r = 1 <-> 64 = 64)) /\
  (exists c, ValueCompare sample_type_tag ∅ (VForm 64) (VForm 64) = Some c /\
             (c = 0 <-> 64 = 64)).
Proof.
  destruct (composite_equal_by_pointer sample_type_tag ∅ (VForm 64)
              (VForm 64) 64 64 eq_refl eq_refl eq_refl eq_refl)
    as (H1 & H2 & _).
  exact (conj H1 H2).
Defined.

(** ** Numbers *)

Lemma SFeqb_refl f : f <> S754_nan -> SFeqb f f = true.
Proof.
  unfold SFeqb. destruct f as [s | s | | s m e]; cbn; try done.
  - by destruct s.
  - intros _. destruct s; rewrite Z.compare_refl, Pcompare_refl; done.
Qed.

Lemma SFeqb_nan_l f : SFeqb S754_nan f = false.
Proof. done. Qed.

Lemma SFltb_nan_l f : SFltb S754_nan f = false.
Proof. done. Qed.

Lemma Number_eq_refl n : Number_isnan n = false -> Number_eq n n = true.
Proof.
  unfold Number_isnan, Number_eq. intros H. apply SFeqb_refl.
  by destruct (Number_decode n).
Qed.

Lemma Number_isnan_decode n :
  Number_isnan n = true -> Number_decode n = S754_nan.
Proof. unfold Number_isnan. by destruct (Number_decode n). Qed.

(** Two patterns that compare equal carry the same fraction bits. *)
Lemma Number_eq_fraction a b :
  Number_eq a b = true -> a mod 2 ^ 52 = b mod 2 ^ 52.
Proof.
  unfold Number_eq, SFeqb, Number_decode.
  pose proof (Z.mod_pos_bound a (2 ^ 52) eq_refl) as Ha.
  pose proof (Z.mod_pos_bound b (2 ^ 52) eq_refl) as Hb.
  set (ea := (a / 2 ^ 52) mod 2 ^ 11). set (eb := (b / 2 ^ 52) mod 2 ^ 11).
  set (sa := Z.odd (a / 2 ^ 63)). set (sb := Z.odd (b / 2 ^ 63)).
  destruct (Z.eqb_spec ea 0) as [Ea | Ea];
    [| destruct (Z.eqb_spec ea 2047) as [Ea' | Ea']];
  (destruct (Z.eqb_spec eb 0) as [Eb | Eb];
    [| destruct (Z.eqb_spec eb 2047) as [Eb' | Eb']]);
  destruct (a mod 2 ^ 52) as [| ma | ma] eqn:Ma;
  destruct (b mod 2 ^ 52) as [| mb | mb] eqn:Mb;
  try lia; cbn [Z.eqb]; cbn [SFcompare];
  repeat match goal with
    | |- context [if ?s then _ else _] => destruct s
    | |- context [match ?s with true => _ | false => _ end] => destruct s
    end;
  try discriminate; try done;
  repeat match goal with
    | |- context [(?u ?= ?v)] =>
        let C := fresh "C" in destruct (Z.compare_spec u v) as [C | C | C]
    end;
  try discriminate;
  intros H;
  repeat match type of H with
    | context [Pos.compare_cont Eq ?p ?q] =>
        let C := fresh "C" in
        destruct (Pos.compare_cont Eq p q) eqn:C;
        [apply Pcompare_Eq_eq in C | |]
    end;
  try discriminate; try lia.
Qed.

Lemma Number_eq_low_word a b :
  Number_eq a b = true -> low_word a = low_word b.
Proof.
  intros H%Number_eq_fraction. unfold low_word.
  rewrite <- (Z.mod_mod_divide a (2 ^ 52) (2 ^ 32)),
          <- (Z.mod_mod_divide b (2 ^ 52) (2 ^ 32));
    try (exists (2 ^ 20); done).
  by rewrite H.
Qed.

(** ** Reflexivity *)

Lemma type_eq_refl x : bool_decide (type x = type x) = true.
Proof. by apply bool_decide_eq_true_2. Qed.

(** C8. Equality and ordering are reflexive on every value that is not a
    number holding a NaN: [ValueEqual] returns 1 and [ValueCompare]
    returns 0, without touching the memory. A number holding a NaN is the
    exception: it is neither equal to itself nor ordered as equal to
    itself. *)
Theorem ValueEqual_ValueCompare_refl (type_tag : ValueType -> Z) (vm : VM)
    (x : Value) :
  (is_nan_value x = false ->
     ValueEqual vm x x = Some (1, vm) /\
     ValueCompare type_tag vm x x = Some 0) /\
  (is_nan_value x = true ->
     ValueEqual vm x x = Some (0, vm) /\
     ValueCompare type_tag vm x x = Some (-1)).
Proof.
  unfold ValueEqual, ValueCompare. rewrite type_eq_refl.
  destruct x as [| b | n | p | p | p | p | p | p | p | p | p | p | p];
    cbn; split; intros H; try discriminate H;
    rewrite ?Z.eqb_refl, ?eqb_reflx; try done.
  - by rewrite (Number_eq_refl n H).
  - apply Number_isnan_decode in H. unfold Number_eq, Number_gt.
    by rewrite H.
Qed.

Lemma ValueEqual_ValueCompare_refl_witness :
  ValueEqual vm_a_b (VString 108) (VString 108) = Some (1, vm_a_b) /\
  ValueCompare sample_type_tag vm_a_b (VString 108) (VString 108) = Some 0.
Proof.
  apply (ValueEqual_ValueCompare_refl sample_type_tag vm_a_b (VString 108)).
  reflexivity.
Defined.

(** ** Equality of strings *)

Lemma VStringRaw_inj s1 s2 : VStringRaw s1 = VStringRaw s2 -> s1 = s2.
Proof. unfold VStringRaw. lia. Qed.

Lemma is_string_at_pointer x s : is_string_at x s -> data_pointer x = Some s.
Proof. by intros [-> | ->]. Qed.

(** What [ValueEqual] computes for two strings, or two symbols, held at
    different addresses. *)
Lemma ValueEqual_strings vm x y sx sy bx by' :
  type x = type y ->
  is_string_at x sx -> is_string_at y sy ->
  sx <> sy ->
  vm !! VStringRaw sx = Some bx -> vm !! VStringRaw sy = Some by' ->
  hash_word_ok bx -> hash_word_ok by' ->
  ValueEqual vm x y =
    Some (if negb (djb2_bytes (chars bx) =? djb2_bytes (chars by'))
             || negb (VStringSize bx =? VStringSize by')
          then 0
          else if strncmp (chars bx) (chars by') (VStringSize bx) =? 0
          then 1 else 0,
          <[VStringRaw sy := memoized by']>
            (<[VStringRaw sx := memoized bx]> vm)).
Proof.
  intros Ht Hx Hy Hne Hbx Hby Hokx Hoky.
  assert (VStringRaw sx <> VStringRaw sy) as Hraw
    by (intros E; by apply VStringRaw_inj in E).
  assert (ValueHash vm x =
            Some (djb2_bytes (chars bx), <[VStringRaw sx := memoized bx]> vm))
    as H1 by by apply ValueHash_string_ok.
  assert (ValueHash (<[VStringRaw sx := memoized bx]> vm) y =
            Some (djb2_bytes (chars by'),
                  <[VStringRaw sy := memoized by']>
                    (<[VStringRaw sx := memoized bx]> vm)))
    as H2 by (apply ValueHash_string_ok; [done | by rewrite lookup_insert_ne | done]).
  unfold ValueEqual. rewrite (bool_decide_eq_true_2 _ Ht). cbn [negb].
  rewrite (is_string_at_pointer x sx Hx), (is_string_at_pointer y sy Hy).
  destruct Hx as [-> | ->]; cbn [type mbind option_bind];
    rewrite (proj2 (Z.eqb_neq sx sy) Hne), H1; cbn [mbind option_bind];
    rewrite H2; cbn [mbind option_bind];
    rewrite (lookup_insert_ne _ _ _ _ (not_eq_sym Hraw)),
      !lookup_insert_eq;
    cbn [mbind option_bind]; rewrite !VStringSize_memoized, ?chars_memoized;
    repeat case_match; done.
Qed.

(** ** Hashing and equality *)

Lemma ValueHash_fst_string vm x s b :
  is_string_at x s ->
  vm !! VStringRaw s = Some b ->
  hash_word_ok b ->
  fst <$> ValueHash vm x = Some (djb2_bytes (chars b)).
Proof.
  intros Hx Hb Hok. by rewrite (ValueHash_string_ok vm x s b Hx Hb Hok).
Qed.

Lemma ValueEqual_other_type vm x y :
  type x <> type y -> ValueEqual vm x y = Some (0, vm).
Proof.
  intros Hne. unfold ValueEqual. by rewrite bool_decide_eq_false_2.
Qed.

Lemma hash_word_okb_spec b : hash_word_okb b = true -> hash_word_ok b.
Proof.
  unfold hash_word_okb, hash_word_ok. intros [H | H]%orb_true_iff;
    apply Z.eqb_eq in H; auto.
Qed.

Lemma hash_fields_ok_spec vm x s :
  hash_fields_ok vm x = true ->
  is_string_at x s ->
  exists b, vm !! VStringRaw s = Some b /\ hash_word_ok b.
Proof.
  intros H [-> | ->]; cbn in H;
    destruct (vm !! VStringRaw s) as [b |]; try discriminate;
    exists b; split; auto using hash_word_okb_spec.
Qed.

Lemma same_hash_strings vm x y sx sy vm' :
  type x = type y ->
  is_string_at x sx -> is_string_at y sy ->
  hash_fields_ok vm x = true -> hash_fields_ok vm y = true ->
  ValueEqual vm x y = Some (1, vm') ->
  exists k,
    fst <$> ValueHash vm x = Some k /\ fst <$> ValueHash vm y = Some k /\
    fst <$> ValueHash vm' x = Some k /\ fst <$> ValueHash vm' y = Some k.
Proof.
  intros Ht Hx Hy Hfx Hfy.
  destruct (hash_fields_ok_spec vm x sx Hfx Hx) as (bx & Hbx & Hokx).
  destruct (hash_fields_ok_spec vm y sy Hfy Hy) as (by' & Hby & Hoky).
  destruct (Z.eq_dec sx sy) as [<- | Hne].
  - assert (by' = bx) as -> by congruence.
    unfold ValueEqual. rewrite (bool_decide_eq_true_2 _ Ht). cbn [negb].
    rewrite (is_string_at_pointer x sx Hx), (is_string_at_pointer y sx Hy).
    pose proof Hx as [-> | ->]; cbn [type mbind option_bind];
      rewrite Z.eqb_refl; intros [= <-];
      exists (djb2_bytes (chars bx));
      repeat split; by eapply ValueHash_fst_string.
  - rewrite (ValueEqual_strings vm x y sx sy bx by' Ht Hx Hy Hne Hbx Hby
               Hokx Hoky).
    destruct (Z.eqb_spec (djb2_bytes (chars bx)) (djb2_bytes (chars by')))
      as [Hk | Hk]; cbn [negb orb]; [| discriminate].
    intros [= _ <-]. exists (djb2_bytes (chars bx)).
    assert (VStringRaw sy <> VStringRaw sx) as Hraw
      by (intros E; by apply VStringRaw_inj in E).
    split; [by eapply ValueHash_fst_string |].
    split; [rewrite Hk; by eapply ValueHash_fst_string |].
    split.
    + rewrite <- (chars_memoized bx).
      eapply ValueHash_fst_string; [done | | apply hash_word_ok_memoized].
      by rewrite lookup_insert_ne, lookup_insert_eq.
    + rewrite Hk, <- (chars_memoized by').
      eapply ValueHash_fst_string; [done | | apply hash_word_ok_memoized].
      by rewrite lookup_insert_eq.
Qed.

(** C9. Hashing agrees with equality. Let every string header that [x] or
    [y] refers to hold zero or the djb2 hash of its characters. If
    [ValueEqual] returns 1 on [x] and [y], then [ValueHash] returns one and
    the same hash for [x] and for [y], in the memory [ValueEqual] started
    from as well as in the memory it left. *)
Theorem ValueEqual_same_ValueHash (vm vm' : VM) (x y : Value) :
  hash_fields_ok vm x = true ->
  hash_fields_ok vm y = true ->
  ValueEqual vm x y = Some (1, vm') ->
  exists k,
    fst <$> ValueHash vm x = Some k /\ fst <$> ValueHash vm y = Some k /\
    fst <$> ValueHash vm' x = Some k /\ fst <$> ValueHash vm' y = Some k.
Proof.
  intros Hfx Hfy.
  destruct (decide (type x = type y)) as [Ht | Ht];
    [| rewrite (ValueEqual_other_type vm x y Ht); discriminate].
  destruct x as [| bx | nx | px | px | sx | sx | px | px | px | px | px | px | px];
    destruct y as [| by' | ny | py | py | sy | sy | py | py | py | py | py | py | py];
    try discriminate Ht;
    try (eapply same_hash_strings; eauto; by (left + right)).
  all: unfold ValueEqual; rewrite (bool_decide_eq_true_2 _ Ht);
    cbn [negb type data_boolean data_number data_pointer mbind option_bind].
  1: { intros [= <-]. by exists 0. }
  1: { destruct (Bool.eqb_spec bx by') as [-> | ?]; [| discriminate].
       intros [= <-]. by exists (Z.b2z by'). }
  1: { destruct (Number_eq nx ny) eqn:E; [| discriminate].
       intros [= <-]. exists (low_word nx). cbn.
       by rewrite <- (Number_eq_low_word nx ny E). }
  all: destruct (Z.eqb_spec px py) as [-> | ?]; [| discriminate];
    intros [= <-]; by exists (low_word py).
Qed.

Lemma ValueEqual_same_ValueHash_witness :
  exists k,
    fst <$> ValueHash vm_twins (VString 108) = Some k /\
    fst <$> ValueHash vm_twins (VString 208) = Some k /\
    fst <$> ValueHash vm_twins_hashed (VString 108) = Some k /\
    fst <$> ValueHash vm_twins_hashed (VString 208) = Some k.
Proof.
  apply (ValueEqual_same_ValueHash vm_twins vm_twins_hashed
           (VString 108) (VString 208)); vm_compute; reflexivity.
Defined.

(** ** Ordering of strings *)

Lemma byte_eqb_refl c : Byte.eqb c c = true.
Proof. by apply byte_dec_lb. Qed.

Lemma byte_eqb_neq a b : a <> b -> Byte.eqb a b = false.
Proof.
  intros Hne. destruct (Byte.eqb a b) eqn:E; [| done].
  by apply byte_dec_bl in E.
Qed.

(** The loop returns at the first position where the strings differ: 1
    when the character of the first string is the smaller one, -1 when it
    is the greater one. *)
Lemma compare_loop_first_difference p a b s1 s2 :
  a <> b ->
  compare_loop (p ++ a :: s1) (p ++ b :: s2) =
    Some (if byte_val a <? byte_val b then 1 else -1).
Proof.
  intros Hne. induction p as [| c p IH]; cbn.
  - rewrite (byte_eqb_neq a b Hne). by destruct (byte_val a <? byte_val b).
  - by rewrite byte_eqb_refl.
Qed.

(** The loop runs to its end when one string is a prefix of the other. *)
Lemma compare_loop_prefix p s : compare_loop p (p ++ s) = None.
Proof.
  induction p as [| c p IH]; cbn; [done |]. by rewrite byte_eqb_refl.
Qed.

(** What [ValueCompare] returns on two strings, or two symbols, held at
    different addresses whose first difference is a smaller character in
    the first one. *)
Lemma ValueCompare_smaller_character type_tag vm x y sx sy bx by' p a b s1 s2 :
  type x = type y ->
  is_string_at x sx -> is_string_at y sy ->
  sx <> sy ->
  vm !! VStringRaw sx = Some bx -> vm !! VStringRaw sy = Some by' ->
  chars bx = p ++ a :: s1 -> chars by' = p ++ b :: s2 ->
  byte_val a < byte_val b ->
  ValueCompare type_tag vm x y = Some 1.
Proof.
  intros Ht Hx Hy Hne Hbx Hby Hcx Hcy Hlt.
  assert (a <> b) as Hab by (intros ->; lia).
  unfold ValueCompare. rewrite (bool_decide_eq_true_2 _ Ht).
  rewrite (is_string_at_pointer x sx Hx), (is_string_at_pointer y sy Hy).
  destruct Hx as [-> | ->]; cbn [type mbind option_bind];
    rewrite (proj2 (Z.eqb_neq sx sy) Hne), Hbx, Hby; cbn [mbind option_bind];
    rewrite Hcx, Hcy, (compare_loop_first_difference p a b s1 s2 Hab);
    by rewrite (proj2 (Z.ltb_lt _ _) Hlt).
Qed.

(** A string that is a proper prefix of the other one is ordered first. *)
Lemma ValueCompare_proper_prefix type_tag vm x y sx sy bx by' c s :
  type x = type y ->
  is_string_at x sx -> is_string_at y sy ->
  sx <> sy ->
  vm !! VStringRaw sx = Some bx -> vm !! VStringRaw sy = Some by' ->
  chars by' = chars bx ++ c :: s ->
  ValueCompare type_tag vm x y = Some (-1).
Proof.
  intros Ht Hx Hy Hne Hbx Hby Hc.
  unfold ValueCompare. rewrite (bool_decide_eq_true_2 _ Ht).
  rewrite (is_string_at_pointer x sx Hx), (is_string_at_pointer y sy Hy).
  assert (VStringSize bx < VStringSize by') as Hlen.
  { unfold VStringSize. rewrite Hc, length_app. cbn. lia. }
  destruct Hx as [-> | ->]; cbn [type mbind option_bind];
    rewrite (proj2 (Z.eqb_neq sx sy) Hne), Hbx, Hby; cbn [mbind option_bind];
    rewrite Hc, compare_loop_prefix;
    rewrite (proj2 (Z.eqb_neq _ _)) by lia;
    by rewrite (proj2 (Z.ltb_lt _ _) Hlen).
Qed.

(** C1. The string ["a"] precedes the string ["b"] in byte order, and
    [ValueCompare] returns 1 on them where the function's own description
    ("if x is less, returns -1") asks for -1; the other way round it
    returns -1. Symbols fare the same. *)
Theorem ValueCompare_a_b_inverted (type_tag : ValueType -> Z) :
  string_at vm_a_b 108 = Some (list_byte_of_string "a") /\
  string_at vm_a_b 208 = Some (list_byte_of_string "b") /\
  ValueCompare type_tag vm_a_b (VString 108) (VString 208) = Some 1 /\
  ValueCompare type_tag vm_a_b (VString 208) (VString 108) = Some (-1) /\
  ValueCompare type_tag vm_a_b (VSymbol 108) (VSymbol 208) = Some 1.
Proof. repeat split; vm_compute; reflexivity. Qed.

(** C2. On a NaN and the number 1.0, [ValueCompare] returns -1 in both
    directions, and it returns -1 on a NaN and itself: the result -1 one
    way does not come with the result 1 the other way. *)
Theorem ValueCompare_nan_both_less (type_tag : ValueType -> Z) (vm : VM) :
  Number_isnan number_nan = true /\
  Number_isnan number_one = false /\
  ValueCompare type_tag vm (VNumber number_nan) (VNumber number_one)
    = Some (-1) /\
  ValueCompare type_tag vm (VNumber number_one) (VNumber number_nan)
    = Some (-1) /\
  ValueCompare type_tag vm (VNumber number_nan) (VNumber number_nan)
    = Some (-1).
Proof. repeat split; vm_compute; reflexivity. Qed.

(** C3. Two strings of the same length whose characters differ, both
    starting with a NUL character and both with the same djb2 hash:
    [ValueEqual] returns 1 on them, for [strncmp] stops at the NUL. *)
Theorem ValueEqual_after_nul :
  string_at vm_nul 108 = Some nul_aa /\
  string_at vm_nul 208 = Some nul_b_at /\
  length nul_aa = length nul_b_at /\
  nul_aa <> nul_b_at /\
  fst <$> ValueEqual vm_nul (VString 108) (VString 208) = Some 1 /\
  fst <$> ValueEqual vm_nul (VSymbol 108) (VSymbol 208) = Some 1.
Proof. repeat split; try (vm_compute; reflexivity). discriminate. Qed.

(** ** Where the ordering and the equality of strings do hold *)

Lemma byte_val_inj a b : byte_val a = byte_val b -> a = b.
Proof.
  unfold byte_val. intros H%N2Z.inj.
  pose proof (Byte.of_to_N a) as Ha. rewrite H, Byte.of_to_N in Ha.
  by injection Ha.
Qed.

Lemma byte_eqb_sym a b : Byte.eqb a b = Byte.eqb b a.
Proof.
  destruct (Byte.eqb b a) eqn:E.
  - apply byte_dec_bl in E as ->. apply byte_eqb_refl.
  - apply byte_eqb_neq. intros ->. by rewrite byte_eqb_refl in E.
Qed.

Lemma compare_loop_antisym xs ys :
  compare_loop ys xs = Z.opp <$> compare_loop xs ys.
Proof.
  revert ys. induction xs as [| a xs IH]; intros [| b ys]; cbn; try done.
  rewrite (byte_eqb_sym b a).
  destruct (Byte.eqb a b) eqn:E; [apply IH |].
  assert (byte_val a <> byte_val b) as Hne.
  { intros ->%byte_val_inj. by rewrite byte_eqb_refl in E. }
  destruct (Z.ltb_spec (byte_val a) (byte_val b)),
           (Z.ltb_spec (byte_val b) (byte_val a)); cbn; try done; lia.
Qed.

Lemma compare_loop_range xs ys r :
  compare_loop xs ys = Some r -> r = 1 \/ r = -1.
Proof.
  revert ys. induction xs as [| a xs IH]; intros [| b ys]; cbn; try done.
  destruct (Byte.eqb a b); [apply IH |].
  destruct (byte_val a <? byte_val b); intros [= <-]; auto.
Qed.

Lemma SFcompare_antisym f1 f2 :
  SFcompare f2 f1 = CompOpp <$> SFcompare f1 f2.
Proof.
  destruct f1 as [s1 | s1 | | s1 m1 e1], f2 as [s2 | s2 | | s2 m2 e2]; cbn;
    try done; try (by destruct s1); try (by destruct s2);
    try (by destruct s1, s2).
  destruct s1, s2; cbn; try done;
    rewrite (Z.compare_antisym e1 e2), (ZC4 m2 m1);
    destruct (e1 ?= e2); cbn; try done;
    by rewrite ?CompOpp_involutive.
Qed.

Lemma SFcompare_not_nan f1 f2 :
  f1 <> S754_nan -> f2 <> S754_nan -> is_Some (SFcompare f1 f2).
Proof.
  destruct f1 as [s1 | s1 | | s1 m1 e1], f2 as [s2 | s2 | | s2 m2 e2]; cbn;
    try done; eauto.
Qed.


Lemma Number_compare_antisym a b :
  Number_isnan a = false -> Number_isnan b = false ->
  Number_compare b a = - Number_compare a b.
Proof.
  unfold Number_isnan, Number_compare, Number_eq, Number_gt, SFeqb, SFltb.
  intros Ha Hb.
  rewrite (SFcompare_antisym (Number_decode a) (Number_decode b)).
  destruct (SFcompare_not_nan (Number_decode a) (Number_decode b))
    as [c ->].
  - by destruct (Number_decode a).
  - by destruct (Number_decode b).
  - by destruct c.
Qed.

Lemma Number_compare_range a b :
  Number_compare a b = -1 \/ Number_compare a b = 0 \/ Number_compare a b = 1.
Proof.
  unfold Number_compare.
  destruct (Number_eq a b), (Number_gt a b); auto.
Qed.

Lemma number_branch a b :
  (if Number_eq a b then Some 0
   else Some (if Number_gt a b then 1 else -1)) =
  Some (Number_compare a b).
Proof. unfold Number_compare. by destruct (Number_eq a b). Qed.

(** X10. Away from NaN, and with distinct numbers for distinct tags, the
    comparison returns -1, 0 or 1 and turning the arguments around negates
    it. *)
Lemma ValueCompare_antisym type_tag vm x y c :
  (forall a b, type_tag a = type_tag b -> a = b) ->
  is_nan_value x = false -> is_nan_value y = false ->
  ValueCompare type_tag vm x y = Some c ->
  (c = -1 \/ c = 0 \/ c = 1) /\ ValueCompare type_tag vm y x = Some (- c).
Proof.
  intros Hinj Hx Hy.
  destruct (decide (type x = type y)) as [Ht | Ht].
  - unfold ValueCompare.
    rewrite (bool_decide_eq_true_2 _ Ht),
            (bool_decide_eq_true_2 _ (eq_sym Ht)).
    destruct x as [| bx | nx | px | px | sx | sx | px | px | px | px | px | px | px];
      destruct y as [| by' | ny | py | py | sy | sy | py | py | py | py | py | py | py];
      try discriminate Ht;
      cbn [type data_boolean data_number data_pointer mbind option_bind].
    1: { intros [= <-]. auto. }
    1: { destruct bx, by'; intros [= <-]; auto. }
    1: { cbn in Hx, Hy. rewrite !number_branch.
         intros [= <-]. rewrite (Number_compare_antisym nx ny Hx Hy).
         split; [apply Number_compare_range | done]. }
    3, 4:
      rewrite (Z.eqb_sym sy sx);
      destruct (sx =? sy); [intros [= <-]; auto |];
      destruct (vm !! VStringRaw sx) as [bx |]; [| discriminate];
      destruct (vm !! VStringRaw sy) as [by' |]; [| discriminate];
      cbn [mbind option_bind];
      rewrite (compare_loop_antisym (chars bx) (chars by'));
      destruct (compare_loop (chars bx) (chars by')) as [r |] eqn:E;
        cbn [fmap option_fmap option_map];
        [ intros [= <-]; apply compare_loop_range in E; split; [lia | done]
        | rewrite (Z.eqb_sym (VStringSize by') (VStringSize bx));
          destruct (Z.eqb_spec (VStringSize bx) (VStringSize by'));
            [intros [= <-]; auto |];
          destruct (Z.ltb_spec (VStringSize bx) (VStringSize by')),
                   (Z.ltb_spec (VStringSize by') (VStringSize bx));
            intros [= <-]; (split; [auto | done || lia]) ].
    all: rewrite (Z.eqb_sym py px);
      destruct (Z.eqb_spec px py); [intros [= <-]; auto |];
      destruct (Z.gtb_spec px py), (Z.gtb_spec py px);
        intros [= <-]; (split; [auto | done || lia]).
  - rewrite (ValueCompare_other_type type_tag vm x y Ht).
    rewrite (ValueCompare_other_type type_tag vm y x (not_eq_sym Ht)).
    assert (type_tag (type x) <> type_tag (type y)) as Hne
      by (intros E; by apply Hinj in E).
    destruct (Z.ltb_spec (type_tag (type x)) (type_tag (type y))),
             (Z.ltb_spec (type_tag (type y)) (type_tag (type x)));
      intros [= <-]; (split; [auto | done || lia]).
Qed.

(** The comparison returns whenever the strings compared are in memory. *)
Lemma ValueCompare_returns type_tag vm x y :
  readable vm x = true -> readable vm y = true ->
  is_Some (ValueCompare type_tag vm x y).
Proof.
  intros Hx Hy. unfold ValueCompare.
  destruct (bool_decide (type x = type y)) eqn:Ht;
    [| by destruct (_ <? _)].
  apply bool_decide_eq_true_1 in Ht.
  destruct x as [| bx | nx | px | px | sx | sx | px | px | px | px | px | px | px];
    destruct y as [| by' | ny | py | py | sy | sy | py | py | py | py | py | py | py];
    try discriminate Ht;
    cbn [type data_boolean data_number data_pointer mbind option_bind];
    repeat case_match; eauto.
  all: cbn in Hx, Hy; apply bool_decide_eq_true_1 in Hx, Hy;
    destruct Hx as [bx Hx], Hy as [by' Hy]; rewrite Hx, Hy;
    cbn [mbind option_bind]; repeat case_match; eauto.
Qed.

Lemma strncmp_bytes_refl s : strncmp_bytes s s = 0.
Proof.
  induction s as [| c s IH]; cbn; [done |].
  rewrite byte_eqb_refl. cbn. by destruct (Byte.eqb c x00).
Qed.

Lemma strncmp_bytes_zero s1 s2 :
  length s1 = length s2 ->
  ~ In x00 s1 ->
  strncmp_bytes s1 s2 = 0 ->
  s1 = s2.
Proof.
  revert s2. induction s1 as [| c1 s1 IH]; intros [| c2 s2] Hlen Hnul;
    cbn in *; try done.
  destruct (Byte.eqb c1 c2) eqn:E; cbn.
  - apply byte_dec_bl in E as <-.
    rewrite byte_eqb_neq by (intros ->; apply Hnul; by left).
    intros H. f_equal. apply IH; [lia | | done].
    intros Hin. apply Hnul. by right.
  - intros H. assert (c1 = c2) as -> by (apply byte_val_inj; lia).
    by rewrite byte_eqb_refl in E.
Qed.

Lemma take_VStringSize b : take (Z.to_nat (VStringSize b)) (chars b) = chars b.
Proof. unfold VStringSize. rewrite Nat2Z.id. apply firstn_all. Qed.

(** On strings without a NUL character whose header words are in order,
    [ValueEqual] returns 1 exactly when the lengths and the characters are
    the same. *)
Lemma ValueEqual_strings_no_nul vm x y sx sy bx by' :
  type x = type y ->
  is_string_at x sx -> is_string_at y sy ->
  sx <> sy ->
  vm !! VStringRaw sx = Some bx -> vm !! VStringRaw sy = Some by' ->
  hash_word_ok bx -> hash_word_ok by' ->
  ~ In x00 (chars bx) ->
  exists r vm',
    ValueEqual vm x y = Some (r, vm') /\
    (r = 1 <-> chars bx = chars by').
Proof.
  intros Ht Hx Hy Hne Hbx Hby Hokx Hoky Hnul.
  rewrite (ValueEqual_strings vm x y sx sy bx by' Ht Hx Hy Hne Hbx Hby
             Hokx Hoky).
  eexists _, _. split; [reflexivity |].
  destruct (Z.eqb_spec (djb2_bytes (chars bx)) (djb2_bytes (chars by')))
    as [Hk | Hk]; cbn [negb orb].
  2: { split; [done |]. intros E. by rewrite E in Hk. }
  destruct (Z.eqb_spec (VStringSize bx) (VStringSize by')) as [Hs | Hs];
    cbn [negb].
  2: { split; [done |]. intros E. unfold VStringSize in Hs.
       by rewrite E in Hs. }
  unfold strncmp. rewrite take_VStringSize, Hs, take_VStringSize.
  destruct (Z.eqb_spec (strncmp_bytes (chars bx) (chars by')) 0) as [Hc | Hc].
  - split; [intros _ | done].
    apply strncmp_bytes_zero; [| done | done].
    unfold VStringSize in Hs. lia.
  - split; [done |]. intros E. rewrite E in Hc.
    by rewrite strncmp_bytes_refl in Hc.
Qed.

(** ** Allocation and printing *)

Lemma heap_top_bounds (vm : VM) :
  1 <= heap_top vm /\ forall a, is_Some (vm !! a) -> a < heap_top vm.
Proof.
  unfold heap_top.
  apply (map_fold_weak_ind
           (fun top (m : VM) =>
              1 <= top /\ forall a, is_Some (m !! a) -> a < top)).
  - split; [lia |]. intros a [? H]. by rewrite lookup_empty in H.
  - intros i b m r Hi [Hr Hall]. split; [lia |].
    intros a. destruct (decide (i = a)) as [-> | Hne].
    + lia.
    + rewrite lookup_insert_ne by done. intros Ha%Hall. lia.
Qed.

(** The block [VMAlloc] hands out is new. *)
Lemma heap_top_fresh (vm : VM) : vm !! heap_top vm = None.
Proof.
  destruct (heap_top_bounds vm) as [_ H].
  apply eq_None_not_Some. intros Hs%H. lia.
Qed.

Lemma VStringRaw_data base : VStringRaw (base + 2 * sizeof_uint32_t) = base.
Proof. unfold VStringRaw. lia. Qed.

Lemma data_not_NULL (vm : VM) : heap_top vm + 2 * sizeof_uint32_t <> NULL.
Proof.
  destruct (heap_top_bounds vm) as [H _].
  unfold NULL, sizeof_uint32_t. lia.
Qed.

Lemma LoadCString_spec vm s len :
  let '(r, vm') := LoadCString vm s len in
  r = heap_top vm + 2 * sizeof_uint32_t /\
  vm' !! VStringRaw r = Some (block_of 0 len (memcpy (cleared len) s len)) /\
  forall a, a <> heap_top vm -> vm' !! a = vm !! a.
Proof.
  unfold LoadCString, VMAlloc. rewrite VStringRaw_data.
  split; [done |]. split; [by rewrite lookup_insert_eq |].
  intros a Ha. by rewrite !lookup_insert_ne.
Qed.

Lemma StringDescription_spec vm title titlelen p :
  let '(r, vm') := StringDescription vm title titlelen p in
  r = heap_top vm + 2 * sizeof_uint32_t /\
  forall a, a <> heap_top vm -> vm' !! a = vm !! a.
Proof.
  unfold StringDescription, VMAlloc. rewrite VStringRaw_data.
  split; [done |]. intros a Ha. by rewrite !lookup_insert_ne.
Qed.

Lemma NumberToString_spec format vm n :
  let '(r, vm') := NumberToString format vm n in
  r = heap_top vm + 2 * sizeof_uint32_t /\
  forall a, a <> heap_top vm -> vm' !! a = vm !! a.
Proof.
  unfold NumberToString, VMAlloc. rewrite VStringRaw_data.
  split; [done |]. intros a Ha. by rewrite !lookup_insert_ne.
Qed.

Lemma allocated_below_top (vm : VM) a :
  is_Some (vm !! a) -> a <> heap_top vm.
Proof.
  destruct (heap_top_bounds vm) as [_ H]. intros Ha%H. lia.
Qed.

Ltac new_string H :=
  match goal with
  | |- context [LoadCString ?vm ?s ?n] =>
      pose proof (LoadCString_spec vm s n) as H;
      destruct (LoadCString vm s n) as [? ?]
  | |- context [StringDescription ?vm ?t ?n ?p] =>
      pose proof (StringDescription_spec vm t n p) as H;
      destruct (StringDescription vm t n p) as [? ?]
  | |- context [NumberToString ?f ?vm ?n] =>
      pose proof (NumberToString_spec f vm n) as H;
      destruct (NumberToString f vm n) as [? ?]
  end.

(** C10, as amended. [ValueToString] returns a string for a value of any
    of the tags, fourteen in all; the pointer it returns is null in one
    case only, that of a string or symbol value that itself holds the null
    pointer. For a string or a symbol it returns the value's own pointer
    and leaves the memory as it is; for nil, true and false the string
    returned reads ["nil"], ["true"] and ["false"]. The strings that were
    in memory before are still there. *)
Theorem ValueToString_null_iff (format_17g : Number -> list byte) (vm : VM)
    (x : Value) :
  exists r vm',
    ValueToString format_17g vm x = Some (r, vm') /\
    (r = NULL <-> null_string x = true) /\
    (forall s, is_string_at x s -> r = s /\ vm' = vm) /\
    (x = VNil -> string_at vm' r = Some (list_byte_of_string "nil")) /\
    (x = VBoolean true ->
       string_at vm' r = Some (list_byte_of_string "true")) /\
    (x = VBoolean false ->
       string_at vm' r = Some (list_byte_of_string "false")) /\
    (forall a, is_Some (vm !! a) -> vm' !! a = vm !! a).
Proof.
  destruct x as [| b | n | p | p | s | s | p | p | p | p | p | p | p];
    cbn [ValueToString type data_boolean data_number data_pointer
         mbind option_bind null_string].
  6, 7: (exists s, vm;
         split; [done |]; split; [symmetry; apply Z.eqb_eq |];
         split; [by intros s' [[= ->] | [= ->]] |];
         repeat (split; [discriminate |]); done).
  2: destruct b.
  all: let H := fresh "H" in
       new_string H; destruct H as (-> & H);
       eexists _, _; split; [reflexivity |];
       split; [split; [intros E; by apply data_not_NULL in E | discriminate] |];
       split; [by intros s' [? | ?] |].
  1, 2, 3: destruct H as [H Hold]; unfold string_at; rewrite H;
    (split; [try done; discriminate |]);
    (split; [try done; discriminate |]);
    (split; [try done; discriminate |]);
    intros a Ha; apply Hold; by apply allocated_below_top.
  all: repeat (split; [discriminate |]);
    intros a Ha; apply H; by apply allocated_below_top.
Qed.

Lemma ValueToString_null_iff_witness :
  exists r vm',
    ValueToString sample_format vm_a_b (VBoolean false) = Some (r, vm') /\
    r <> NULL /\
    string_at vm' r = Some (list_byte_of_string "false").
Proof.
  destruct (ValueToString_null_iff sample_format vm_a_b (VBoolean false))
    as (r & vm' & H1 & H2 & _ & _ & _ & H3 & _).
  exists r, vm'. split; [exact H1 |]. split; [| exact (H3 eq_refl)].
  intros E. apply H2 in E. discriminate E.
Defined.

(** C10, as stated, fails on a string value that holds the null pointer:
    its type is one of the tags and [ValueToString] returns the null
    pointer it holds. *)
Lemma ValueToString_null_string :
  type (VString NULL) = TYPE_STRING /\
  ValueToString sample_format vm_a_b (VString NULL) = Some (NULL, vm_a_b).
Proof. split; reflexivity. Qed.

(** The description of a reference is written after a header that still
    says the string is empty. *)
Example ValueToString_thread :
  match ValueToString sample_format vm_a_b (VThread 108) with
  | Some (r, vm') =>
      string_at vm' r = Some [] /\
      slack <$> vm' !! VStringRaw r =
        Some (list_byte_of_string "<thread 6C00000000000000>")
  | None => False
  end.
Proof. vm_compute. split; reflexivity. Qed.

(** ** The compiler's error cell *)

Section CompileErrors.

Variable DstFuncDef : Type.
Variable dispatch :
  Compile.DstFopts -> Compile.DstCompiler ->
  Compile.DstSlot * Compile.DstCompiler.
Variable dstc_pop_funcdef : Compile.DstCompiler -> DstFuncDef.

Lemma dstc_iserr_dstc_error c sm m :
  Compile.dstc_iserr (Compile.dstc_error c sm m) = true.
Proof.
  unfold Compile.dstc_error.
  by destruct (Compile.dstc_iserr c) eqn:E.
Qed.

Lemma dstc_value_after_error opts c :
  Compile.dstc_iserr c = true ->
  Compile.dstc_value dispatch opts c = (Compile.dstc_cslot VNil, c).
Proof. unfold Compile.dstc_value. by intros ->. Qed.

Lemma compile_forms_after_error forms c :
  Compile.dstc_iserr c = true ->
  Compile.compile_forms dispatch forms c =
    (map (fun _ => Compile.dstc_cslot VNil) forms, c).
Proof.
  intros Herr. induction forms as [| opts rest IH]; cbn; [done |].
  by rewrite (dstc_value_after_error opts c Herr), IH.
Qed.

(** C7. Let an error be recorded in a compiler that held none. From then
    on the cell keeps that error: recording another one changes nothing,
    emitting changes nothing, and every form compiled afterwards, alone
    or in a row, comes back as the constant slot of nil and leaves the
    compiler, its instruction buffer included, as it was. What the
    compilation hands to its caller is that first error and no
    [FuncDef]. *)
Theorem first_error_wins (c : Compile.DstCompiler) (sm : pointer)
    (m : list byte) :
  Compile.dstc_iserr c = false ->
  let c1 := Compile.dstc_error c sm m in
  Compile.result c1 = Compile.DST_COMPILE_ERROR sm m /\
  Compile.buffer c1 = Compile.buffer c /\
  (forall sm' m', Compile.dstc_error c1 sm' m' = c1) /\
  (forall sm' instr, Compile.dstc_emit c1 sm' instr = c1) /\
  (forall opts,
      Compile.dstc_value dispatch opts c1 = (Compile.dstc_cslot VNil, c1)) /\
  (forall forms,
      Compile.compile_forms dispatch forms c1 =
        (map (fun _ => Compile.dstc_cslot VNil) forms, c1)) /\
  Compile.publish DstFuncDef dstc_pop_funcdef c1 = inr (sm, m).
Proof.
  intros Hok c1.
  assert (Compile.dstc_iserr c1 = true) as Herr
    by apply dstc_iserr_dstc_error.
  assert (Compile.result c1 = Compile.DST_COMPILE_ERROR sm m) as Hres
    by (unfold c1, Compile.dstc_error; by rewrite Hok).
  split; [done |].
  split; [unfold c1, Compile.dstc_error; by rewrite Hok |].
  split; [intros; unfold Compile.dstc_error; by rewrite Herr |].
  split; [intros; unfold Compile.dstc_emit; by rewrite Herr |].
  split; [intros; by apply dstc_value_after_error |].
  split; [intros; by apply compile_forms_after_error |].
  unfold Compile.publish. by rewrite Hres.
Qed.

(** A compilation publishes a [FuncDef] only if no error was recorded
    while the root form was compiled. *)
Lemma dst_compile_publishes source sm env guard def :
  Compile.dst_compile DstFuncDef dispatch dstc_pop_funcdef source sm env
    guard = inl def ->
  exists s c,
    dispatch (Compile.mkFopts source sm Compile.DST_FOPTS_TAIL
                (Compile.dstc_cslot VNil))
             (Compile.mkCompiler guard [] [] env Compile.DST_COMPILE_OK)
      = (s, c) /\
    Compile.dstc_iserr c = false /\ def = dstc_pop_funcdef c.
Proof.
  unfold Compile.dst_compile, Compile.dstc_value, Compile.publish. cbn.
  destruct (dispatch _ _) as [s c] eqn:E. cbn.
  destruct (Compile.result c) eqn:R; [| discriminate].
  intros [= <-]. exists s, c. unfold Compile.dstc_iserr. by rewrite R.
Qed.

End CompileErrors.

Lemma first_error_wins_witness :
  let c1 := Compile.dstc_cerror sample_compiler 16 "unknown symbol" in
  Compile.buffer c1 = [7] /\
  Compile.compile_forms sample_dispatch
    [sample_fopts (VNumber number_one); sample_fopts (VBoolean true)] c1 =
    ([Compile.dstc_cslot VNil; Compile.dstc_cslot VNil], c1) /\
  Compile.publish (list Z) sample_pop_funcdef c1 =
    inr (16, list_byte_of_string "unknown symbol").
Proof.
  destruct (first_error_wins (list Z) sample_dispatch sample_pop_funcdef
              sample_compiler 16 (list_byte_of_string "unknown symbol")
              eq_refl) as (_ & H1 & _ & _ & _ & H2 & H3).
  exact (conj H1 (conj (H2 _) H3)).
Defined.

(** Without an error the sample dispatcher does emit. *)
Example compile_forms_emits :
  Compile.buffer
    (Compile.compile_forms sample_dispatch
       [sample_fopts (VNumber number_one); sample_fopts (VBoolean true)]
       sample_compiler).2 = [7; 1; 1].
Proof. reflexivity. Qed.

(** * Further properties *)

(** ** What hashing and equality write *)

Lemma only_memoizes_refl vm : only_memoizes vm vm.
Proof. intros a. by left. Qed.

Lemma only_memoizes_trans vm1 vm2 vm3 :
  only_memoizes vm1 vm2 -> only_memoizes vm2 vm3 -> only_memoizes vm1 vm3.
Proof.
  intros H12 H23 a.
  destruct (H12 a) as [E12 | (b & Hb & Hz & E12)],
           (H23 a) as [E23 | (b' & Hb' & Hz' & E23)].
  - left. congruence.
  - right. exists b'. rewrite <- E12. done.
  - right. exists b. rewrite E23. done.
  - right. exists b. rewrite E12 in Hb'. injection Hb' as <-.
    by rewrite E23, memoized_idemp.
Qed.

Lemma only_memoizes_insert vm a b :
  vm !! a = Some b -> VStringHash b = 0 ->
  only_memoizes vm (<[a := memoized b]> vm).
Proof.
  intros Hb Hz a'. destruct (decide (a = a')) as [<- | Hne].
  - right. exists b. by rewrite lookup_insert_eq.
  - left. by rewrite lookup_insert_ne.
Qed.

Lemma only_memoizes_chars vm vm' a b :
  only_memoizes vm vm' -> vm !! a = Some b ->
  exists b', vm' !! a = Some b' /\ chars b' = chars b /\
             slack b' = slack b /\ block_hash b' = block_hash b.
Proof.
  intros H Hb. destruct (H a) as [E | (b0 & Hb0 & Hz & E)].
  - exists b. by rewrite E.
  - rewrite Hb in Hb0. injection Hb0 as <-. exists (memoized b).
    repeat split; try done.
    unfold block_hash. cbn. rewrite Hz. cbn.
    by destruct (djb2_bytes (chars b) =? 0) eqn:E0;
      [apply Z.eqb_eq in E0 |].
Qed.

Lemma ValueHash_only_memoizes vm x k vm' :
  ValueHash vm x = Some (k, vm') -> only_memoizes vm vm'.
Proof.
  destruct x as [| b | n | p | p | s | s | p | p | p | p | p | p | p]; cbn;
    try (intros [= _ <-]; apply only_memoizes_refl).
  all: destruct (vm !! VStringRaw s) as [b |] eqn:Hb; cbn; [| done];
    destruct (Z.eqb_spec (VStringHash b) 0) as [Hz | Hz]; cbn;
    [| intros [= _ <-]; apply only_memoizes_refl];
    unfold djb2; rewrite Hb; cbn; intros [= _ <-];
    by apply only_memoizes_insert.
Qed.

Lemma only_memoizes_frame vm vm' :
  only_memoizes vm vm' ->
  (forall s, string_at vm' s = string_at vm s) /\
  (forall a, is_Some (vm' !! a) <-> is_Some (vm !! a)) /\
  (forall a b, vm !! a = Some b -> VStringHash b <> 0 -> vm' !! a = Some b) /\
  (heap_ok vm -> heap_ok vm').
Proof.
  intros H.
  split; [intros s | split; [intros a; split | split; [intros a b Hb Hnz |]]].
  - unfold string_at.
    destruct (H (VStringRaw s)) as [-> | (b & -> & _ & ->)]; done.
  - destruct (H a) as [-> | (b & Hb & _ & Hb')]; [done |]. eauto.
  - destruct (H a) as [-> | (b & Hb & _ & Hb')]; [done |]. eauto.
  - destruct (H a) as [E | (b0 & Hb0 & Hz & _)].
    + by rewrite E.
    + rewrite Hb in Hb0. injection Hb0 as <-. done.
  - intros Hok a b' Hb'. destruct (H a) as [E | (b & Hb & _ & E)].
    + rewrite E in Hb'. by eapply Hok.
    + rewrite E in Hb'. injection Hb' as <-. apply hash_word_ok_memoized.
Qed.

(** X1. [ValueHash] is stable on every value, whatever its header holds:
    a second call returns the hash the first one returned and leaves the
    memory exactly as the first one left it. *)
Theorem ValueHash_stable (vm vm' : VM) (x : Value) (k : Z) :
  ValueHash vm x = Some (k, vm') ->
  ValueHash vm' x = Some (k, vm').
Proof.
  destruct x as [| b | n | p | p | s | s | p | p | p | p | p | p | p];
    try (cbn; by intros [= <- <-]).
  all: intros H;
    assert (exists b, vm !! VStringRaw s = Some b) as [b Hb]
      by (cbn in H; destruct (vm !! VStringRaw s); [eauto | done]);
    rewrite (ValueHash_string_eq vm _ s b) in H
      by first [done | by left | by right];
    destruct (Z.eqb_spec (VStringHash b) 0) as [Hz | Hz]; cbn in H;
    injection H as <- <-.
  all: try (rewrite (ValueHash_string_eq vm _ s b)
              by first [done | by left | by right];
            by rewrite (proj2 (Z.eqb_neq _ _) Hz)).
  all: rewrite (ValueHash_string_ok _ _ s (memoized b))
         by first [by left | by right | apply lookup_insert_eq
                  | apply hash_word_ok_memoized];
    by rewrite memoized_idemp, insert_id by apply lookup_insert_eq.
Qed.

Lemma ValueHash_stable_witness :
  ValueHash vm_twins_hashed (VString 108) = Some (5863446, vm_twins_hashed).
Proof.
  apply (ValueHash_stable
           (<[200 := memoized (fresh_string "hi")]> vm_twins)
           vm_twins_hashed (VString 108) 5863446).
  vm_compute. reflexivity.
Defined.

(** X2. [ValueHash] writes nothing but a hash into a header word that was
    zero: the characters of every string stay what they were, no block
    appears or disappears, a header word that was set keeps its value, and
    a memory whose header words were all zero or the hash of their string
    is still such a memory. *)
Theorem ValueHash_frame (vm vm' : VM) (x : Value) (k : Z) :
  ValueHash vm x = Some (k, vm') ->
  (forall s, string_at vm' s = string_at vm s) /\
  (forall a, is_Some (vm' !! a) <-> is_Some (vm !! a)) /\
  (forall a b, vm !! a = Some b -> VStringHash b <> 0 -> vm' !! a = Some b) /\
  (heap_ok vm -> heap_ok vm').
Proof.
  intros H. apply only_memoizes_frame. by eapply ValueHash_only_memoizes.
Qed.

Lemma ValueHash_frame_witness :
  string_at vm_twins_hashed 108 =
  string_at (<[200 := memoized (fresh_string "hi")]> vm_twins) 108.
Proof.
  apply (ValueHash_frame
           (<[200 := memoized (fresh_string "hi")]> vm_twins)
           vm_twins_hashed (VString 108) 5863446).
  vm_compute. reflexivity.
Defined.

Lemma ValueEqual_only_memoizes vm x y r vm' :
  ValueEqual vm x y = Some (r, vm') -> only_memoizes vm vm'.
Proof.
  unfold ValueEqual.
  destruct (bool_decide (type x = type y)) eqn:Ht; cbn [negb];
    [| intros [= _ <-]; apply only_memoizes_refl].
  apply bool_decide_eq_true_1 in Ht.
  destruct x as [| bx | nx | px | px | sx | sx | px | px | px | px | px | px | px];
    destruct y as [| by' | ny | py | py | sy | sy | py | py | py | py | py | py | py];
    try discriminate Ht;
    cbn [type data_boolean data_number data_pointer mbind option_bind];
    try (intros [= _ <-]; apply only_memoizes_refl).
  all: destruct (sx =? sy); [intros [= _ <-]; apply only_memoizes_refl |];
    match goal with
    | |- context [ValueHash ?m ?v] =>
        destruct (ValueHash m v) as [[hx vm1] |] eqn:H1;
        cbn [mbind option_bind]; [| done]
    end;
    match goal with
    | |- context [ValueHash ?m ?v] =>
        destruct (ValueHash m v) as [[hy vm2] |] eqn:H2;
        cbn [mbind option_bind]; [| done]
    end;
    destruct (vm2 !! VStringRaw sx) as [bx |]; cbn [mbind option_bind];
      [| done];
    destruct (vm2 !! VStringRaw sy) as [by' |]; cbn [mbind option_bind];
      [| done];
    intros H;
    assert (vm' = vm2) as -> by (repeat case_match; congruence);
    eapply only_memoizes_trans; by eapply ValueHash_only_memoizes.
Qed.

(** X3. [ValueEqual] writes nothing but hashes into header words that
    were zero: the characters of every string stay what they were, no
    block appears or disappears, a header word that was set keeps its
    value, and a memory whose header words were all zero or the hash of
    their string is still such a memory. *)
Theorem ValueEqual_frame (vm vm' : VM) (x y : Value) (r : Z) :
  ValueEqual vm x y = Some (r, vm') ->
  (forall s, string_at vm' s = string_at vm s) /\
  (forall a, is_Some (vm' !! a) <-> is_Some (vm !! a)) /\
  (forall a b, vm !! a = Some b -> VStringHash b <> 0 -> vm' !! a = Some b) /\
  (heap_ok vm -> heap_ok vm').
Proof.
  intros H. apply only_memoizes_frame. by eapply ValueEqual_only_memoizes.
Qed.

Lemma ValueEqual_frame_witness :
  string_at vm_twins_hashed 208 = string_at vm_twins 208.
Proof.
  apply (ValueEqual_frame vm_twins vm_twins_hashed (VString 108)
           (VString 208) 1).
  vm_compute. reflexivity.
Defined.

(** ** Symmetry of equality *)

Lemma ValueHash_string_gen vm x s b :
  is_string_at x s ->
  vm !! VStringRaw s = Some b ->
  exists vm', ValueHash vm x = Some (block_hash b, vm') /\
              only_memoizes vm vm'.
Proof.
  intros Hx Hb.
  assert (exists vm', ValueHash vm x = Some (block_hash b, vm'))
    as [vm' H].
  { rewrite (ValueHash_string_eq vm x s b Hx Hb). unfold block_hash.
    destruct (VStringHash b =? 0); cbn; eauto. }
  exists vm'. split; [done |]. by eapply ValueHash_only_memoizes.
Qed.

Lemma ValueHash_string_none vm x s :
  is_string_at x s -> vm !! VStringRaw s = None -> ValueHash vm x = None.
Proof. intros [-> | ->] Hb; cbn; by rewrite Hb. Qed.

Lemma only_memoizes_none vm vm' a :
  only_memoizes vm vm' -> vm !! a = None -> vm' !! a = None.
Proof.
  intros H Ha. destruct (H a) as [-> | (b & Hb & _)]; congruence.
Qed.

(** The verdict of [ValueEqual] on two string blocks. *)
Lemma ValueEqual_strings_gen vm x y sx sy bx by' :
  type x = type y ->
  is_string_at x sx -> is_string_at y sy ->
  sx <> sy ->
  vm !! VStringRaw sx = Some bx -> vm !! VStringRaw sy = Some by' ->
  fst <$> ValueEqual vm x y =
    Some (if negb (block_hash bx =? block_hash by')
             || negb (VStringSize bx =? VStringSize by')
          then 0
          else if strncmp (chars bx) (chars by') (VStringSize bx) =? 0
          then 1 else 0).
Proof.
  intros Ht Hx Hy Hne Hbx Hby.
  destruct (ValueHash_string_gen vm x sx bx Hx Hbx) as (vm1 & H1 & M1).
  destruct (only_memoizes_chars vm vm1 _ by' M1 Hby)
    as (by1 & Hby1 & Hc1 & _ & Hh1).
  destruct (ValueHash_string_gen vm1 y sy by1 Hy Hby1) as (vm2 & H2 & M2).
  pose proof (only_memoizes_trans _ _ _ M1 M2) as M.
  destruct (only_memoizes_chars vm vm2 _ bx M Hbx) as (bx2 & Hbx2 & Hcx & _).
  destruct (only_memoizes_chars vm vm2 _ by' M Hby) as (by2 & Hby2 & Hcy & _).
  unfold ValueEqual. rewrite (bool_decide_eq_true_2 _ Ht). cbn [negb].
  rewrite (is_string_at_pointer x sx Hx), (is_string_at_pointer y sy Hy).
  assert (match type x with
          | TYPE_STRING | TYPE_SYMBOL => True | _ => False end) as Hty
    by (by destruct Hx as [-> | ->]).
  destruct (type x); try done; cbn [mbind option_bind];
    rewrite (proj2 (Z.eqb_neq sx sy) Hne), H1; cbn [mbind option_bind];
    rewrite H2; cbn [mbind option_bind];
    rewrite Hbx2, Hby2; cbn [mbind option_bind];
    unfold VStringSize; rewrite Hcx, Hcy, Hh1;
    repeat case_match; done.
Qed.

Lemma strncmp_bytes_antisym s1 s2 :
  strncmp_bytes s2 s1 = - strncmp_bytes s1 s2.
Proof.
  revert s2. induction s1 as [| c1 s1 IH]; intros [| c2 s2]; cbn; try done.
  rewrite (byte_eqb_sym c2 c1).
  destruct (Byte.eqb c1 c2) eqn:E; cbn; [| lia].
  apply byte_dec_bl in E as ->.
  destruct (Byte.eqb c2 x00); [done | apply IH].
Qed.

Lemma Number_eq_sym a b : Number_eq b a = Number_eq a b.
Proof.
  unfold Number_eq, SFeqb.
  rewrite (SFcompare_antisym (Number_decode a) (Number_decode b)).
  by destruct (SFcompare (Number_decode a) (Number_decode b)) as [[] |].
Qed.

Lemma ValueEqual_string_none_l vm x y sx sy :
  type x = type y ->
  is_string_at x sx -> is_string_at y sy ->
  sx <> sy ->
  vm !! VStringRaw sx = None ->
  ValueEqual vm x y = None /\ ValueEqual vm y x = None.
Proof.
  intros Ht Hx Hy Hne Hbx.
  unfold ValueEqual.
  rewrite (bool_decide_eq_true_2 _ Ht), (bool_decide_eq_true_2 _ (eq_sym Ht)).
  cbn [negb].
  rewrite (is_string_at_pointer x sx Hx), (is_string_at_pointer y sy Hy).
  assert (match type x with
          | TYPE_STRING | TYPE_SYMBOL => True | _ => False end) as Hty
    by (by destruct Hx as [-> | ->]).
  rewrite <- Ht.
  destruct (type x); try done; cbn [mbind option_bind];
    rewrite (proj2 (Z.eqb_neq sx sy) Hne),
            (proj2 (Z.eqb_neq sy sx) (not_eq_sym Hne)),
            (ValueHash_string_none vm x sx Hx Hbx);
    (split; [done |]);
    destruct (ValueHash vm y) as [[hy vm1] |] eqn:H1;
      cbn [mbind option_bind]; try done;
    by rewrite (ValueHash_string_none vm1 x sx Hx
                  (only_memoizes_none _ _ _
                     (ValueHash_only_memoizes _ _ _ _ H1) Hbx)).
Qed.

(** X4. [ValueEqual] is symmetric: on every two values and every memory,
    a string that cannot be read included, it gives the same verdict with
    its arguments exchanged. *)
Theorem ValueEqual_sym (vm : VM) (x y : Value) :
  fst <$> ValueEqual vm x y = fst <$> ValueEqual vm y x.
Proof.
  destruct (decide (type x = type y)) as [Ht | Ht];
    [| by rewrite (ValueEqual_other_type vm x y Ht),
                  (ValueEqual_other_type vm y x (not_eq_sym Ht))].
  destruct x as [| bx | nx | px | px | sx | sx | px | px | px | px | px | px | px];
    destruct y as [| by' | ny | py | py | sy | sy | py | py | py | py | py | py | py];
    try discriminate Ht.
  1: done.
  1: { unfold ValueEqual. cbn. by destruct bx, by'. }
  1: { unfold ValueEqual. cbn. by rewrite (Number_eq_sym nx ny). }
  3, 4:
    destruct (Z.eq_dec sx sy) as [-> | Hne]; [done |];
    destruct (vm !! VStringRaw sx) as [bx |] eqn:Hbx;
      [| edestruct (ValueEqual_string_none_l vm _ _ sx sy Ht) as [-> ->];
         first [done | by left | by right]];
    (destruct (vm !! VStringRaw sy) as [by' |] eqn:Hby;
      [| edestruct (ValueEqual_string_none_l vm _ _ sy sx (eq_sym Ht))
           as [-> ->]; first [done | by left | by right | by apply not_eq_sym]]);
    rewrite (ValueEqual_strings_gen vm _ _ sx sy bx by' Ht)
      by first [done | by left | by right];
    rewrite (ValueEqual_strings_gen vm _ _ sy sx by' bx (eq_sym Ht))
      by first [done | by left | by right | by apply not_eq_sym];
    rewrite (Z.eqb_sym (block_hash by') (block_hash bx)),
            (Z.eqb_sym (VStringSize by') (VStringSize bx));
    destruct (block_hash bx =? block_hash by'); cbn [negb orb]; [| done];
    destruct (Z.eqb_spec (VStringSize bx) (VStringSize by')) as [Hs | Hs];
      cbn [negb]; [| done];
    unfold strncmp; rewrite Hs;
    rewrite (strncmp_bytes_antisym
               (take (Z.to_nat (VStringSize by')) (chars bx))
               (take (Z.to_nat (VStringSize by')) (chars by')));
    by destruct (strncmp_bytes _ _).
  all: unfold ValueEqual; cbn; by rewrite (Z.eqb_sym py px).
Qed.

(** ** The order of strings *)

(** What [ValueCompare] computes for two strings, or two symbols, held at
    different addresses. *)
Lemma ValueCompare_strings type_tag vm x y sx sy bx by' :
  type x = type y ->
  is_string_at x sx -> is_string_at y sy ->
  sx <> sy ->
  vm !! VStringRaw sx = Some bx -> vm !! VStringRaw sy = Some by' ->
  ValueCompare type_tag vm x y =
    match compare_loop (chars bx) (chars by') with
    | Some r => Some r
    | None =>
        if VStringSize bx =? VStringSize by' then Some 0
        else Some (if VStringSize bx <? VStringSize by' then -1 else 1)
    end.
Proof.
  intros Ht Hx Hy Hne Hbx Hby.
  unfold ValueCompare. rewrite (bool_decide_eq_true_2 _ Ht).
  rewrite (is_string_at_pointer x sx Hx), (is_string_at_pointer y sy Hy).
  destruct Hx as [-> | ->]; cbn [type mbind option_bind];
    by rewrite (proj2 (Z.eqb_neq sx sy) Hne), Hbx, Hby.
Qed.

Lemma compare_loop_prefix_r p s : compare_loop (p ++ s) p = None.
Proof.
  induction p as [| c p IH]; cbn; [by destruct s |].
  by rewrite byte_eqb_refl.
Qed.

Lemma compare_loop_None_same_length xs ys :
  compare_loop xs ys = None -> length xs = length ys -> xs = ys.
Proof.
  revert ys. induction xs as [| a xs IH]; intros [| b ys]; cbn; try done.
  destruct (Byte.eqb a b) eqn:E.
  - apply byte_dec_bl in E as ->. intros H [= Hl]. f_equal. by apply IH.
  - by destruct (byte_val a <? byte_val b).
Qed.

(** X5. Two strings, or two symbols, at different addresses that first
    differ in one character: [ValueCompare] returns 1 when the character
    of the first string is the smaller one and -1 when it is the greater
    one, whatever follows the two characters. *)
Theorem ValueCompare_first_difference (type_tag : ValueType -> Z) (vm : VM)
    (x y : Value) (sx sy : pointer) (bx by' : VStringBlock)
    (p s1 s2 : list byte) (a b : byte) :
  type x = type y ->
  is_string_at x sx -> is_string_at y sy ->
  sx <> sy ->
  vm !! VStringRaw sx = Some bx -> vm !! VStringRaw sy = Some by' ->
  chars bx = p ++ a :: s1 -> chars by' = p ++ b :: s2 ->
  a <> b ->
  ValueCompare type_tag vm x y =
    Some (if byte_val a <? byte_val b then 1 else -1).
Proof.
  intros Ht Hx Hy Hne Hbx Hby Hcx Hcy Hab.
  rewrite (ValueCompare_strings type_tag vm x y sx sy bx by' Ht Hx Hy Hne
             Hbx Hby).
  by rewrite Hcx, Hcy, (compare_loop_first_difference p a b s1 s2 Hab).
Qed.

Lemma ValueCompare_first_difference_witness :
  ValueCompare sample_type_tag vm_a_b (VSymbol 208) (VSymbol 108) = Some (-1).
Proof.
  apply (ValueCompare_first_difference sample_type_tag vm_a_b
           (VSymbol 208) (VSymbol 108) 208 108
           (fresh_string "b") (fresh_string "a") [] [] [] "b"%byte "a"%byte);
    first [reflexivity | by right | discriminate].
Defined.

(** X6. A string that is a proper prefix of another one at a different
    address is ordered before it: [ValueCompare] returns -1 on the prefix
    and the longer string, and 1 on the longer string and the prefix. *)
Theorem ValueCompare_prefix (type_tag : ValueType -> Z) (vm : VM)
    (x y : Value) (sx sy : pointer) (bx by' : VStringBlock) (c : byte)
    (s : list byte) :
  type x = type y ->
  is_string_at x sx -> is_string_at y sy ->
  sx <> sy ->
  vm !! VStringRaw sx = Some bx -> vm !! VStringRaw sy = Some by' ->
  chars by' = chars bx ++ c :: s ->
  ValueCompare type_tag vm x y = Some (-1) /\
  ValueCompare type_tag vm y x = Some 1.
Proof.
  intros Ht Hx Hy Hne Hbx Hby Hc.
  assert (VStringSize bx < VStringSize by') as Hlen.
  { unfold VStringSize. rewrite Hc, length_app. cbn. lia. }
  rewrite (ValueCompare_strings type_tag vm x y sx sy bx by' Ht Hx Hy Hne
             Hbx Hby).
  rewrite (ValueCompare_strings type_tag vm y x sy sx by' bx (eq_sym Ht) Hy
             Hx (not_eq_sym Hne) Hby Hbx).
  rewrite Hc, compare_loop_prefix, compare_loop_prefix_r.
  rewrite !(proj2 (Z.eqb_neq _ _)) by lia.
  rewrite (proj2 (Z.ltb_lt _ _) Hlen), (proj2 (Z.ltb_ge _ _)) by lia.
  done.
Qed.

Lemma ValueCompare_prefix_witness :
  ValueCompare sample_type_tag vm_h_hi (VString 108) (VString 208)
    = Some (-1) /\
  ValueCompare sample_type_tag vm_h_hi (VString 208) (VString 108) = Some 1.
Proof.
  apply (ValueCompare_prefix sample_type_tag vm_h_hi (VString 108)
           (VString 208) 108 208 (fresh_string "h") (fresh_string "hi")
           "i"%byte []);
    first [reflexivity | by left | discriminate].
Defined.

Lemma string_branch_zero bx by' :
  match compare_loop (chars bx) (chars by') with
  | Some r => Some r
  | None =>
      if VStringSize bx =? VStringSize by' then Some 0
      else Some (if VStringSize bx <? VStringSize by' then -1 else 1)
  end = Some 0 <-> chars bx = chars by'.
Proof.
  split.
  - destruct (compare_loop (chars bx) (chars by')) as [r |] eqn:E.
    + intros [= ->]. apply compare_loop_range in E. lia.
    + destruct (Z.eqb_spec (VStringSize bx) (VStringSize by')) as [Hs | Hs].
      * intros _. apply compare_loop_None_same_length; [done |].
        unfold VStringSize in Hs. lia.
      * by destruct (VStringSize bx <? VStringSize by').
  - intros E. rewrite E.
    rewrite <- (app_nil_r (chars by')) at 2.
    rewrite compare_loop_prefix.
    unfold VStringSize. by rewrite E, Z.eqb_refl.
Qed.

(** X7. On two strings, or two symbols, at different addresses
    [ValueCompare] returns 0 exactly when both have the same
    characters. *)
Theorem ValueCompare_zero_same_chars (type_tag : ValueType -> Z) (vm : VM)
    (x y : Value) (sx sy : pointer) (bx by' : VStringBlock) :
  type x = type y ->
  is_string_at x sx -> is_string_at y sy ->
  sx <> sy ->
  vm !! VStringRaw sx = Some bx -> vm !! VStringRaw sy = Some by' ->
  (ValueCompare type_tag vm x y = Some 0 <-> chars bx = chars by').
Proof.
  intros Ht Hx Hy Hne Hbx Hby.
  rewrite (ValueCompare_strings type_tag vm x y sx sy bx by' Ht Hx Hy Hne
             Hbx Hby).
  apply string_branch_zero.
Qed.

Lemma ValueCompare_zero_same_chars_witness :
  ValueCompare sample_type_tag vm_twins (VString 108) (VString 208) = Some 0.
Proof.
  apply (ValueCompare_zero_same_chars sample_type_tag vm_twins
           (VString 108) (VString 208) 108 208
           (fresh_string "hi") (fresh_string "hi"));
    first [reflexivity | by left | discriminate].
Defined.

(** ** Equality and the order agree *)

Lemma nul_free_spec cs : nul_free cs = true -> ~ In x00 cs.
Proof.
  unfold nul_free. rewrite forallb_forall. intros H Hin.
  specialize (H x00 Hin). by rewrite byte_eqb_refl in H.
Qed.

Lemma ValueEqual_same_pointer vm x y s :
  type x = type y -> is_string_at x s -> is_string_at y s ->
  ValueEqual vm x y = Some (1, vm).
Proof.
  intros Ht Hx Hy. unfold ValueEqual.
  rewrite (bool_decide_eq_true_2 _ Ht). cbn [negb].
  rewrite (is_string_at_pointer x s Hx), (is_string_at_pointer y s Hy).
  destruct Hx as [-> | ->]; cbn [type mbind option_bind];
    by rewrite Z.eqb_refl.
Qed.

Lemma ValueCompare_same_pointer type_tag vm x y s :
  type x = type y -> is_string_at x s -> is_string_at y s ->
  ValueCompare type_tag vm x y = Some 0.
Proof.
  intros Ht Hx Hy. unfold ValueCompare.
  rewrite (bool_decide_eq_true_2 _ Ht).
  rewrite (is_string_at_pointer x s Hx), (is_string_at_pointer y s Hy).
  destruct Hx as [-> | ->]; cbn [type mbind option_bind];
    by rewrite Z.eqb_refl.
Qed.

(** X8. On two strings, or two symbols, whose header words are zero or
    the hash of their characters and the first of which holds no NUL
    character, [ValueEqual] returns 1 exactly when both have the same
    characters, be they at one address or at two. *)
Theorem ValueEqual_decides_content (vm : VM) (x y : Value) (sx sy : pointer)
    (bx by' : VStringBlock) :
  type x = type y ->
  is_string_at x sx -> is_string_at y sy ->
  vm !! VStringRaw sx = Some bx -> vm !! VStringRaw sy = Some by' ->
  hash_word_ok bx -> hash_word_ok by' ->
  nul_free (chars bx) = true ->
  (fst <$> ValueEqual vm x y = Some 1 <-> chars bx = chars by').
Proof.
  intros Ht Hx Hy Hbx Hby Hokx Hoky Hnul%nul_free_spec.
  destruct (Z.eq_dec sx sy) as [<- | Hne].
  - rewrite (ValueEqual_same_pointer vm x y sx Ht Hx Hy).
    assert (by' = bx) as -> by congruence. done.
  - destruct (ValueEqual_strings_no_nul vm x y sx sy bx by' Ht Hx Hy Hne
                Hbx Hby Hokx Hoky Hnul) as (r & vm' & -> & Hr).
    cbn. rewrite <- Hr. split; [by intros [= ->] | by intros ->].
Qed.

Lemma ValueEqual_decides_content_witness :
  fst <$> ValueEqual vm_twins (VString 108) (VString 208) = Some 1.
Proof.
  apply (ValueEqual_decides_content vm_twins (VString 108) (VString 208)
           108 208 (fresh_string "hi") (fresh_string "hi"));
    first [reflexivity | by left].
Defined.

Lemma nul_free_value_spec vm x s :
  nul_free_value vm x = true -> is_string_at x s ->
  exists b, vm !! VStringRaw s = Some b /\ nul_free (chars b) = true.
Proof.
  intros H [-> | ->]; cbn in H;
    destruct (vm !! VStringRaw s) as [b |]; try discriminate; eauto.
Qed.

Lemma agree_strings type_tag vm x y sx sy :
  type x = type y ->
  is_string_at x sx -> is_string_at y sy ->
  hash_fields_ok vm x = true -> hash_fields_ok vm y = true ->
  (ValueCompare type_tag vm x y = Some 0 ->
     fst <$> ValueEqual vm x y = Some 1) /\
  (nul_free_value vm x = true ->
     fst <$> ValueEqual vm x y = Some 1 ->
     ValueCompare type_tag vm x y = Some 0).
Proof.
  intros Ht Hx Hy Hfx Hfy.
  destruct (Z.eq_dec sx sy) as [<- | Hne].
  { rewrite (ValueEqual_same_pointer vm x y sx Ht Hx Hy).
    by rewrite (ValueCompare_same_pointer type_tag vm x y sx Ht Hx Hy). }
  destruct (hash_fields_ok_spec vm x sx Hfx Hx) as (bx & Hbx & Hokx).
  destruct (hash_fields_ok_spec vm y sy Hfy Hy) as (by' & Hby & Hoky).
  rewrite (ValueCompare_strings type_tag vm x y sx sy bx by' Ht Hx Hy Hne
             Hbx Hby).
  rewrite string_branch_zero.
  split.
  - intros E.
    rewrite (ValueEqual_strings vm x y sx sy bx by' Ht Hx Hy Hne Hbx Hby
               Hokx Hoky).
    cbn. unfold strncmp, VStringSize. rewrite E, !Z.eqb_refl. cbn.
    by rewrite strncmp_bytes_refl.
  - intros Hn. destruct (nul_free_value_spec vm x sx Hn Hx) as (b & Hb & Hnul).
    assert (b = bx) as -> by congruence.
    destruct (ValueEqual_strings_no_nul vm x y sx sy bx by' Ht Hx Hy Hne
                Hbx Hby Hokx Hoky (nul_free_spec _ Hnul))
      as (r & vm' & -> & Hr).
    cbn. intros [= ->]. by apply Hr.
Qed.

(** X9. Equality and the order agree. Let the header words of the strings
    involved be zero or the hash of their characters. Whenever
    [ValueCompare] returns 0 on two values, [ValueEqual] returns 1 on
    them; and whenever [ValueEqual] returns 1, [ValueCompare] returns 0,
    provided that the first value, if it is a string or a symbol, holds no
    NUL character. *)
Theorem ValueCompare_zero_ValueEqual (type_tag : ValueType -> Z) (vm : VM)
    (x y : Value) :
  hash_fields_ok vm x = true ->
  hash_fields_ok vm y = true ->
  (ValueCompare type_tag vm x y = Some 0 ->
     fst <$> ValueEqual vm x y = Some 1) /\
  (nul_free_value vm x = true ->
     fst <$> ValueEqual vm x y = Some 1 ->
     ValueCompare type_tag vm x y = Some 0).
Proof.
  intros Hfx Hfy.
  destruct (decide (type x = type y)) as [Ht | Ht].
  2: { rewrite (ValueCompare_other_type type_tag vm x y Ht),
               (ValueEqual_other_type vm x y Ht).
       split; [by destruct (_ <? _) | done]. }
  destruct x as [| bx | nx | px | px | sx | sx | px | px | px | px | px | px | px];
    destruct y as [| by' | ny | py | py | sy | sy | py | py | py | py | py | py | py];
    try discriminate Ht;
    try (eapply agree_strings; eauto; by (left + right)).
  all: unfold ValueCompare, ValueEqual; rewrite (bool_decide_eq_true_2 _ Ht);
    cbn [negb type data_boolean data_number data_pointer mbind option_bind
         fmap option_fmap option_map fst].
  1: done.
  1: by destruct bx, by'.
  1: by destruct (Number_eq nx ny), (Number_gt nx ny).
  all: destruct (px =? py); [done |]; by destruct (px >? py).
Qed.

Lemma ValueCompare_zero_ValueEqual_witness :
  ValueCompare sample_type_tag vm_twins (VString 108) (VString 208) = Some 0.
Proof.
  apply (ValueCompare_zero_ValueEqual sample_type_tag vm_twins
           (VString 108) (VString 208)); reflexivity.
Defined.

(** ** The order is transitive *)

Lemma ValueCompare_strings_order type_tag vm x y sx sy bx by' :
  type x = type y ->
  is_string_at x sx -> is_string_at y sy ->
  sx <> sy ->
  vm !! VStringRaw sx = Some bx -> vm !! VStringRaw sy = Some by' ->
  ValueCompare type_tag vm x y = Some (string_order (chars bx) (chars by')).
Proof.
  intros Ht Hx Hy Hne Hbx Hby.
  rewrite (ValueCompare_strings type_tag vm x y sx sy bx by' Ht Hx Hy Hne
             Hbx Hby).
  unfold string_order, VStringSize.
  destruct (compare_loop (chars bx) (chars by')); [done |].
  by destruct (_ =? _).
Qed.

Lemma string_order_cons a xs b ys :
  string_order (a :: xs) (b :: ys) =
    if Byte.eqb a b then string_order xs ys
    else if byte_val a <? byte_val b then 1 else -1.
Proof.
  unfold string_order. cbn [compare_loop length].
  destruct (Byte.eqb a b); [| by destruct (byte_val a <? byte_val b)].
  destruct (compare_loop xs ys); [done |].
  rewrite !Nat2Z.inj_succ.
  destruct (Z.eqb_spec (Z.of_nat (length xs)) (Z.of_nat (length ys))),
           (Z.eqb_spec (Z.succ (Z.of_nat (length xs)))
                       (Z.succ (Z.of_nat (length ys)))); try lia.
  destruct (Z.ltb_spec (Z.of_nat (length xs)) (Z.of_nat (length ys))),
           (Z.ltb_spec (Z.succ (Z.of_nat (length xs)))
                       (Z.succ (Z.of_nat (length ys)))); lia.
Qed.

Lemma string_order_nil_nil : string_order [] [] = 0.
Proof. done. Qed.

Lemma string_order_nil_cons b ys : string_order [] (b :: ys) = -1.
Proof. done. Qed.

Lemma string_order_cons_nil a xs : string_order (a :: xs) [] = 1.
Proof. done. Qed.

Lemma string_order_range xs ys :
  string_order xs ys = -1 \/ string_order xs ys = 0 \/ string_order xs ys = 1.
Proof.
  unfold string_order.
  destruct (compare_loop xs ys) as [r |] eqn:E.
  - apply compare_loop_range in E. lia.
  - destruct (_ =? _); [auto |]. destruct (_ <? _); auto.
Qed.

Lemma string_order_refl xs : string_order xs xs = 0.
Proof.
  unfold string_order. rewrite <- (app_nil_r xs) at 2.
  by rewrite compare_loop_prefix, Z.eqb_refl.
Qed.

Lemma string_order_trans xs ys zs :
  string_order xs ys <= 0 -> string_order ys zs <= 0 ->
  string_order xs zs = Z.min (string_order xs ys) (string_order ys zs).
Proof.
  revert ys zs. induction xs as [| a xs IH]; intros [| b ys] [| c zs];
    rewrite ?string_order_nil_nil, ?string_order_nil_cons,
            ?string_order_cons_nil.
  1, 2, 3, 5, 6, 7: lia.
  - pose proof (string_order_range (b :: ys) (c :: zs)). lia.
  - rewrite !string_order_cons.
    pose proof (string_order_range xs ys).
    pose proof (string_order_range ys zs).
    destruct (Byte.eqb a b) eqn:Eab; [apply byte_dec_bl in Eab as -> |];
      (destruct (Byte.eqb b c) eqn:Ebc; [apply byte_dec_bl in Ebc as -> |]);
      rewrite ?Eab, ?Ebc, ?byte_eqb_refl.
    + apply IH.
    + destruct (byte_val b <? byte_val c); lia.
    + destruct (byte_val a <? byte_val c); lia.
    + destruct (Z.ltb_spec (byte_val a) (byte_val b)); [lia |].
      destruct (Z.ltb_spec (byte_val b) (byte_val c)); [lia |].
      intros _ _.
      assert (byte_val a <> byte_val b)
        by (intros ->%byte_val_inj; by rewrite byte_eqb_refl in Eab).
      assert (byte_val b <> byte_val c)
        by (intros ->%byte_val_inj; by rewrite byte_eqb_refl in Ebc).
      rewrite byte_eqb_neq by (intros ->; lia).
      rewrite (proj2 (Z.ltb_ge _ _)) by lia. lia.
Qed.

Lemma SFcompare_trans f1 f2 f3 c12 c23 :
  SFcompare f1 f2 = Some c12 -> SFcompare f2 f3 = Some c23 ->
  c12 <> Gt -> c23 <> Gt ->
  SFcompare f1 f3 =
    Some match c12, c23 with Eq, Eq => Eq | _, _ => Lt end.
Proof.
  destruct f1 as [s1 | s1 | | s1 m1 e1], f2 as [s2 | s2 | | s2 m2 e2],
           f3 as [s3 | s3 | | s3 m3 e3];
    cbn [SFcompare]; try discriminate;
    try (destruct s1); try (destruct s2); try (destruct s3);
    try (intros [= <-] [= <-]; done).
  all: repeat match goal with
       | |- context [Pos.compare_cont Eq ?p ?q] =>
           change (Pos.compare_cont Eq p q) with (p ?= q)%positive;
           destruct (Pos.compare_spec p q)
       | |- context [(?u ?= ?v)] => destruct (Z.compare_spec u v)
       end;
    cbn [CompOpp]; intros [= <-] [= <-] ? ?; try done; try lia.
Qed.

Lemma Number_compare_SFcompare a b :
  Number_isnan a = false -> Number_isnan b = false ->
  exists c, SFcompare (Number_decode a) (Number_decode b) = Some c /\
            Number_compare a b =
              match c with Eq => 0 | Lt => -1 | Gt => 1 end.
Proof.
  unfold Number_isnan, Number_compare, Number_eq, Number_gt, SFeqb, SFltb.
  intros Ha Hb.
  rewrite (SFcompare_antisym (Number_decode a) (Number_decode b)).
  destruct (SFcompare_not_nan (Number_decode a) (Number_decode b))
    as [c ->].
  - by destruct (Number_decode a).
  - by destruct (Number_decode b).
  - exists c. by destruct c.
Qed.

Lemma Number_compare_trans a b c :
  Number_isnan a = false -> Number_isnan b = false ->
  Number_isnan c = false ->
  Number_compare a b <= 0 -> Number_compare b c <= 0 ->
  Number_compare a c = Z.min (Number_compare a b) (Number_compare b c).
Proof.
  intros Ha Hb Hc.
  destruct (Number_compare_SFcompare a b Ha Hb) as (c12 & H12 & ->).
  destruct (Number_compare_SFcompare b c Hb Hc) as (c23 & H23 & ->).
  destruct (Number_compare_SFcompare a c Ha Hc) as (c13 & H13 & ->).
  intros L12 L23.
  assert (c12 <> Gt) as N12 by (intros ->; lia).
  assert (c23 <> Gt) as N23 by (intros ->; lia).
  rewrite (SFcompare_trans _ _ _ _ _ H12 H23 N12 N23) in H13.
  injection H13 as <-. by destruct c12, c23.
Qed.

Lemma ValueCompare_range type_tag vm x y c :
  ValueCompare type_tag vm x y = Some c -> c = -1 \/ c = 0 \/ c = 1.
Proof.
  unfold ValueCompare.
  destruct (bool_decide (type x = type y)) eqn:Ht;
    [| destruct (_ <? _); intros [= <-]; auto].
  apply bool_decide_eq_true_1 in Ht.
  destruct x as [| bx | nx | px | px | sx | sx | px | px | px | px | px | px | px];
    destruct y as [| by' | ny | py | py | sy | sy | py | py | py | py | py | py | py];
    try discriminate Ht;
    cbn [type data_boolean data_number data_pointer mbind option_bind].
  1: intros [= <-]; auto.
  1: destruct bx, by'; intros [= <-]; auto.
  1: rewrite number_branch; intros [= <-]; apply Number_compare_range.
  3, 4: destruct (sx =? sy); [intros [= <-]; auto |];
    destruct (vm !! VStringRaw sx) as [bx |]; [| done];
    destruct (vm !! VStringRaw sy) as [by' |]; [| done];
    cbn [mbind option_bind];
    destruct (compare_loop (chars bx) (chars by')) as [r |] eqn:E;
      [intros [= <-]; apply compare_loop_range in E; lia |];
    destruct (_ =? _); [intros [= <-]; auto |];
    destruct (_ <? _); intros [= <-]; auto.
  all: destruct (px =? py); [intros [= <-]; auto |];
    destruct (px >? py); intros [= <-]; auto.
Qed.

Lemma ValueCompare_strings_readable type_tag vm x y sx sy c :
  type x = type y ->
  is_string_at x sx -> is_string_at y sy ->
  sx <> sy ->
  ValueCompare type_tag vm x y = Some c ->
  exists bx by', vm !! VStringRaw sx = Some bx /\
                 vm !! VStringRaw sy = Some by'.
Proof.
  intros Ht Hx Hy Hne. unfold ValueCompare.
  rewrite (bool_decide_eq_true_2 _ Ht).
  rewrite (is_string_at_pointer x sx Hx), (is_string_at_pointer y sy Hy).
  destruct Hx as [-> | ->]; cbn [type mbind option_bind];
    rewrite (proj2 (Z.eqb_neq sx sy) Hne);
    destruct (vm !! VStringRaw sx) as [bx |]; cbn [mbind option_bind];
      try done;
    destruct (vm !! VStringRaw sy) as [by' |]; cbn [mbind option_bind];
      try done; eauto.
Qed.

Lemma same_string_value x y s :
  type x = type y -> is_string_at x s -> is_string_at y s -> x = y.
Proof. by intros Ht [-> | ->] [-> | ->]. Qed.

Lemma trans_strings type_tag vm x y z sx sy sz a b :
  type x = type y -> type y = type z ->
  is_string_at x sx -> is_string_at y sy -> is_string_at z sz ->
  ValueCompare type_tag vm x y = Some a ->
  ValueCompare type_tag vm y z = Some b ->
  a <= 0 -> b <= 0 ->
  ValueCompare type_tag vm x z = Some (Z.min a b).
Proof.
  intros Hxy Hyz Hx Hy Hz Ha Hb La Lb.
  destruct (Z.eq_dec sx sy) as [<- | Nxy].
  { assert (x = y) as <- by by eapply same_string_value.
    rewrite (ValueCompare_same_pointer type_tag vm x x sx eq_refl Hx Hx) in Ha.
    injection Ha as <-. rewrite Hb. f_equal. lia. }
  destruct (Z.eq_dec sy sz) as [<- | Nyz].
  { assert (y = z) as <- by by eapply same_string_value.
    rewrite (ValueCompare_same_pointer type_tag vm y y sy eq_refl Hy Hy) in Hb.
    injection Hb as <-. rewrite Ha. f_equal. lia. }
  destruct (ValueCompare_strings_readable type_tag vm x y sx sy a Hxy Hx Hy
              Nxy Ha) as (bx & by' & Hbx & Hby).
  destruct (ValueCompare_strings_readable type_tag vm y z sy sz b Hyz Hy Hz
              Nyz Hb) as (by2 & bz & Hby2 & Hbz).
  assert (by2 = by') as -> by congruence.
  rewrite (ValueCompare_strings_order type_tag vm x y sx sy bx by' Hxy Hx Hy
             Nxy Hbx Hby) in Ha. injection Ha as <-.
  rewrite (ValueCompare_strings_order type_tag vm y z sy sz by' bz Hyz Hy Hz
             Nyz Hby Hbz) in Hb. injection Hb as <-.
  pose proof (string_order_trans (chars bx) (chars by') (chars bz) La Lb)
    as Htr.
  destruct (Z.eq_dec sx sz) as [<- | Nxz].
  - assert (bz = bx) as -> by congruence.
    rewrite string_order_refl in Htr.
    rewrite (ValueCompare_same_pointer type_tag vm x z sx
               (eq_trans Hxy Hyz) Hx Hz).
    by rewrite Htr.
  - rewrite (ValueCompare_strings_order type_tag vm x z sx sz bx bz
               (eq_trans Hxy Hyz) Hx Hz Nxz Hbx Hbz).
    by rewrite Htr.
Qed.

Lemma other_type_less type_tag vm x y a :
  type x <> type y ->
  ValueCompare type_tag vm x y = Some a -> a <= 0 ->
  a = -1 /\ type_tag (type x) < type_tag (type y).
Proof.
  intros Ht. rewrite (ValueCompare_other_type type_tag vm x y Ht).
  destruct (Z.ltb_spec (type_tag (type x)) (type_tag (type y)));
    intros [= <-] ?; [done | lia].
Qed.

Lemma less_type_tag type_tag vm x z :
  type_tag (type x) < type_tag (type z) ->
  ValueCompare type_tag vm x z = Some (-1).
Proof.
  intros Hlt.
  assert (type x <> type z) as Ht by (intros E; rewrite E in Hlt; lia).
  rewrite (ValueCompare_other_type type_tag vm x z Ht).
  by rewrite (proj2 (Z.ltb_lt _ _) Hlt).
Qed.

(** X11. Away from NaN the order is transitive, for every numbering of
    the tags: when [ValueCompare] puts [x] before or level with [y] and
    [y] before or level with [z] (results -1 or 0), it puts [x] before or
    level with [z], and level only if both steps were level: the result
    is the smaller of the two results. *)
Theorem ValueCompare_trans (type_tag : ValueType -> Z) (vm : VM)
    (x y z : Value) (a b : Z) :
  is_nan_value x = false -> is_nan_value y = false ->
  is_nan_value z = false ->
  ValueCompare type_tag vm x y = Some a ->
  ValueCompare type_tag vm y z = Some b ->
  a <= 0 -> b <= 0 ->
  ValueCompare type_tag vm x z = Some (Z.min a b).
Proof.
  intros Nx Ny Nz Ha Hb La Lb.
  pose proof (ValueCompare_range type_tag vm x y a Ha) as Ra.
  pose proof (ValueCompare_range type_tag vm y z b Hb) as Rb.
  destruct (decide (type x = type y)) as [Hxy | Hxy].
  2: { destruct (other_type_less type_tag vm x y a Hxy Ha La) as [-> Lt1].
       replace (Z.min (-1) b) with (-1) by lia.
       apply less_type_tag.
       destruct (decide (type y = type z)) as [<- | Hyz]; [done |].
       destruct (other_type_less type_tag vm y z b Hyz Hb Lb) as [_ Lt2].
       lia. }
  destruct (decide (type y = type z)) as [Hyz | Hyz].
  2: { destruct (other_type_less type_tag vm y z b Hyz Hb Lb) as [-> Lt2].
       replace (Z.min a (-1)) with (-1) by lia.
       apply less_type_tag. by rewrite Hxy. }
  destruct x as [| bx | nx | px | px | sx | sx | px | px | px | px | px | px | px];
    destruct y as [| by' | ny | py | py | sy | sy | py | py | py | py | py | py | py];
    try discriminate Hxy;
    destruct z as [| bz | nz | pz | pz | sz | sz | pz | pz | pz | pz | pz | pz | pz];
    try discriminate Hyz;
    try (apply (trans_strings type_tag vm _ _ _ sx sy sz a b Hxy Hyz);
         first [done | by left | by right]).
  all: revert Ha Hb; unfold ValueCompare;
    rewrite !(bool_decide_eq_true_2 _ eq_refl);
    cbn [type data_boolean data_number data_pointer mbind option_bind].
  1: intros [= <-] [= <-]; done.
  1: destruct bx, by', bz; intros [= <-] [= <-]; cbn in *; try done; lia.
  1: { rewrite !number_branch. intros [= <-] [= <-]. f_equal.
       by apply Number_compare_trans. }
  all: destruct (Z.eqb_spec px py), (Z.eqb_spec py pz), (Z.eqb_spec px pz);
    destruct (Z.gtb_spec px py), (Z.gtb_spec py pz), (Z.gtb_spec px pz);
    intros [= <-] [= <-]; try done; lia.
Qed.

Lemma ValueCompare_trans_witness :
  ValueCompare sample_type_tag vm_h_hi (VBoolean true) (VString 208)
    = Some (-1).
Proof.
  apply (ValueCompare_trans sample_type_tag vm_h_hi (VBoolean true)
           (VString 108) (VString 208) (-1) (-1));
    first [reflexivity | lia].
Defined.

Lemma sample_type_tag_inj a b :
  sample_type_tag a = sample_type_tag b -> a = b.
Proof. by destruct a, b. Qed.

Lemma ValueCompare_antisym_witness :
  ValueCompare sample_type_tag vm_h_hi (VString 208) (VString 108)
    = Some (- -1).
Proof.
  apply (ValueCompare_antisym sample_type_tag vm_h_hi (VString 108)
           (VString 208) (-1) sample_type_tag_inj);
    reflexivity.
Defined.

(** ** Numbers are ordered by value *)

(** X12. Two numbers that are not NaN are ordered by their value:
    [ValueCompare] returns -1 when the first is less than the second in
    the IEEE-754 order, 0 when the two are equal in that order (as the
    two zeros are), and 1 otherwise. *)
Theorem ValueCompare_numbers_by_value (type_tag : ValueType -> Z) (vm : VM)
    (a b : Number) :
  Number_isnan a = false -> Number_isnan b = false ->
  ValueCompare type_tag vm (VNumber a) (VNumber b) =
    Some (if SFltb (Number_decode a) (Number_decode b) then -1
          else if SFeqb (Number_decode a) (Number_decode b) then 0
          else 1).
Proof.
  intros Ha Hb. unfold ValueCompare.
  rewrite (bool_decide_eq_true_2 _ eq_refl).
  cbn [type data_number mbind option_bind]. rewrite number_branch.
  destruct (Number_compare_SFcompare a b Ha Hb) as (c & Hc & ->).
  unfold SFltb, SFeqb. rewrite Hc. by destruct c.
Qed.

Lemma ValueCompare_numbers_by_value_witness :
  ValueCompare sample_type_tag ∅ (VNumber number_neg_zero)
    (VNumber number_one) = Some (-1).
Proof.
  apply (ValueCompare_numbers_by_value sample_type_tag ∅ number_neg_zero
           number_one); reflexivity.
Defined.

(** ** Hashes are 32-bit words *)

Lemma djb2_step_range h c : 0 <= djb2_step h c < 2 ^ 32.
Proof. unfold djb2_step, uint32. by apply Z.mod_pos_bound. Qed.

Lemma fold_djb2_range cs h :
  0 <= h < 2 ^ 32 -> 0 <= fold_left djb2_step cs h < 2 ^ 32.
Proof.
  revert h. induction cs as [| c cs IH]; intros h Hh; cbn; [done |].
  apply IH, djb2_step_range.
Qed.

Lemma djb2_bytes_range cs : 0 <= djb2_bytes cs < 2 ^ 32.
Proof. apply fold_djb2_range. lia. Qed.

(** X13. The hash of a value is a 32-bit word: in a memory whose header
    words fit 32 bits, every result of [ValueHash] lies between 0 and
    2^32 - 1, and the memory it leaves has header words that fit 32 bits
    again. *)
Theorem ValueHash_range (vm vm' : VM) (x : Value) (k : Z) :
  header_words_32 vm ->
  ValueHash vm x = Some (k, vm') ->
  0 <= k < 2 ^ 32 /\ header_words_32 vm'.
Proof.
  intros H32 H.
  assert (header_words_32 vm') as H32'.
  { intros a b' Hb'.
    destruct (ValueHash_only_memoizes vm x k vm' H a)
      as [E | (b & Hb & _ & E)].
    - rewrite E in Hb'. by eapply H32.
    - rewrite E in Hb'. injection Hb' as <-. apply djb2_bytes_range. }
  split; [| done].
  destruct x as [| b | n | p | p | s | s | p | p | p | p | p | p | p];
    cbn in H;
    try (injection H as <- <-; first [done | by destruct b
           | by apply Z.mod_pos_bound]).
  all: destruct (vm !! VStringRaw s) as [b |] eqn:Hb; cbn in H; [| done];
    destruct (VStringHash b =? 0); cbn in H;
    [ unfold djb2 in H; rewrite Hb in H; cbn in H; injection H as <- <-;
      apply djb2_bytes_range
    | injection H as <- <-; by eapply H32 ].
Qed.

Lemma ValueHash_range_witness :
  0 <= 5863446 < 2 ^ 32 /\ header_words_32 vm_twins_hashed.
Proof.
  apply (ValueHash_range (<[200 := memoized (fresh_string "hi")]> vm_twins)
           vm_twins_hashed (VString 108) 5863446).
  - intros a b.
    rewrite lookup_insert. case_decide; [intros [= <-]; by vm_compute |].
    unfold vm_twins.
    rewrite lookup_insert. case_decide; [intros [= <-]; by vm_compute |].
    rewrite lookup_insert. case_decide; [intros [= <-]; by vm_compute |].
    by rewrite lookup_empty.
  - vm_compute. reflexivity.
Defined.

(** ** Loading C strings *)

Lemma strlen_bounds s : 0 <= strlen s <= Z.of_nat (length s).
Proof.
  induction s as [| c s IH]; cbn [strlen length]; [lia |].
  destruct (Byte.eqb c x00); lia.
Qed.

Lemma before_nul_cons c s :
  before_nul (c :: s) = if Byte.eqb c x00 then [] else c :: before_nul s.
Proof.
  unfold before_nul. cbn [strlen].
  destruct (Byte.eqb c x00); [done |].
  pose proof (strlen_bounds s).
  rewrite Z2Nat.inj_add by lia. done.
Qed.

Lemma before_nul_nul_free s : nul_free (before_nul s) = true.
Proof.
  induction s as [| c s IH]; [done |].
  rewrite before_nul_cons. destruct (Byte.eqb c x00) eqn:E; [done |].
  unfold nul_free in *. cbn. by rewrite E.
Qed.

Lemma before_nul_length s : Z.of_nat (length (before_nul s)) = strlen s.
Proof.
  unfold before_nul. pose proof (strlen_bounds s).
  rewrite length_take. lia.
Qed.

Lemma before_nul_id s : nul_free s = true -> before_nul s = s.
Proof.
  induction s as [| c s IH]; [done |].
  rewrite before_nul_cons. unfold nul_free in *. cbn.
  destruct (Byte.eqb c x00); cbn; [done |]. by intros ->%IH.
Qed.

Lemma before_nul_app u t : before_nul (u ++ x00 :: t) = before_nul u.
Proof.
  induction u as [| c u IH]; [done |].
  cbn [app]. rewrite !before_nul_cons, IH. done.
Qed.

Lemma before_nul_prefix s : exists rest, s = before_nul s ++ rest.
Proof.
  exists (drop (Z.to_nat (strlen s)) s). unfold before_nul.
  by rewrite take_drop.
Qed.

Lemma chars_loaded s len :
  0 <= len <= Z.of_nat (length s) ->
  chars (block_of 0 len (memcpy (cleared len) s len)) = take (Z.to_nat len) s.
Proof.
  intros Hlen. unfold block_of, memcpy, cleared. cbn [chars].
  rewrite take_app_le by (rewrite length_take; lia).
  rewrite take_take. f_equal. lia.
Qed.

(** X14. [LoadCString] makes a new string that reads back as the first
    [len] characters it was given, with its header word zero; the pointer
    it returns is not null and addressed no string before, and every
    string that was in memory is still there, unchanged. *)
Theorem LoadCString_reads_back (vm : VM) (s : list byte) (len : Z) :
  0 <= len <= Z.of_nat (length s) ->
  let '(r, vm') := LoadCString vm s len in
  string_at vm' r = Some (take (Z.to_nat len) s) /\
  VStringHash <$> vm' !! VStringRaw r = Some 0 /\
  r <> NULL /\
  vm !! VStringRaw r = None /\
  (forall a, is_Some (vm !! a) -> vm' !! a = vm !! a).
Proof.
  intros Hlen. pose proof (LoadCString_spec vm s len) as H.
  destruct (LoadCString vm s len) as [r vm']. destruct H as (-> & Hr & Hold).
  unfold string_at. rewrite Hr. cbn [fmap option_fmap option_map].
  rewrite (chars_loaded s len Hlen).
  repeat split; try done.
  - apply data_not_NULL.
  - rewrite VStringRaw_data. apply heap_top_fresh.
  - intros a Ha. apply Hold. by apply allocated_below_top.
Qed.

Lemma LoadCString_reads_back_witness :
  string_at (LoadCString vm_a_b (list_byte_of_string "nil") 3).2
            (LoadCString vm_a_b (list_byte_of_string "nil") 3).1
    = Some (list_byte_of_string "nil").
Proof.
  pose proof (LoadCString_reads_back vm_a_b (list_byte_of_string "nil") 3)
    as H.
  destruct (LoadCString vm_a_b (list_byte_of_string "nil") 3) as [r vm'].
  apply H. cbn. lia.
Defined.

Lemma uint32_strlen_bounds s :
  0 <= uint32 (strlen s) <= Z.of_nat (length s).
Proof.
  pose proof (strlen_bounds s). unfold uint32.
  pose proof (Z.mod_pos_bound (strlen s) (2 ^ 32) eq_refl).
  pose proof (Z.mod_le (strlen s) (2 ^ 32)). lia.
Qed.

Lemma ValueLoadCString_spec vm s :
  let '(x, vm') := ValueLoadCString vm s in
  x = VString (heap_top vm + 2 * sizeof_uint32_t) /\
  vm' !! heap_top vm =
    Some (block_of 0 (uint32 (strlen s))
            (memcpy (cleared (uint32 (strlen s))) s (uint32 (strlen s)))) /\
  (forall a, is_Some (vm !! a) -> vm' !! a = vm !! a).
Proof.
  unfold ValueLoadCString.
  pose proof (LoadCString_spec vm s (uint32 (strlen s))) as H.
  destruct (LoadCString vm s (uint32 (strlen s))) as [r vm'].
  destruct H as (-> & Hr & Hold). rewrite VStringRaw_data in Hr.
  repeat split; try done.
  intros a Ha. apply Hold. by apply allocated_below_top.
Qed.

Lemma chars_loaded_strlen s :
  chars (block_of 0 (uint32 (strlen s))
           (memcpy (cleared (uint32 (strlen s))) s (uint32 (strlen s))))
    = loaded_chars s.
Proof. apply chars_loaded, uint32_strlen_bounds. Qed.

Lemma loaded_chars_short s :
  strlen s < 2 ^ 32 -> loaded_chars s = before_nul s.
Proof.
  intros H. pose proof (strlen_bounds s).
  unfold loaded_chars, before_nul, uint32. by rewrite Z.mod_small by lia.
Qed.

Lemma nul_free_take n cs : nul_free cs = true -> nul_free (take n cs) = true.
Proof.
  unfold nul_free. revert n. induction cs as [| c cs IH]; intros [| n];
    cbn; try done.
  intros [Hc Hcs]%andb_true_iff. by rewrite Hc, IH.
Qed.

Lemma loaded_chars_nul_free s : nul_free (loaded_chars s) = true.
Proof.
  pose proof (strlen_bounds s).
  pose proof (Z.mod_le (strlen s) (2 ^ 32)).
  pose proof (Z.mod_pos_bound (strlen s) (2 ^ 32) eq_refl).
  replace (loaded_chars s)
    with (take (Z.to_nat (uint32 (strlen s))) (before_nul s)).
  - apply nul_free_take, before_nul_nul_free.
  - unfold loaded_chars, before_nul, uint32. rewrite take_take.
    f_equal. lia.
Qed.

(** X15. Two C strings loaded one after the other by [ValueLoadCString]
    are told apart by [ValueEqual] exactly by the characters they were
    loaded with: it returns 1 if these are the same and 0 if they are not,
    although the two values sit at different addresses; and [ValueHash] of
    the first is the djb2 hash of its characters. The characters loaded
    are those before the first NUL when there are fewer than 2^32 of
    them; a longer string is cut, its length being passed as a
    [uint32_t], to as many characters as the length modulo 2^32 says. *)
Theorem ValueLoadCString_ValueEqual (vm : VM) (s1 s2 : list byte) :
  let '(x, vm1) := ValueLoadCString vm s1 in
  let '(y, vm2) := ValueLoadCString vm1 s2 in
  (exists r, fst <$> ValueEqual vm2 x y = Some r /\
             (r = 1 \/ r = 0) /\
             (r = 1 <-> loaded_chars s1 = loaded_chars s2)) /\
  fst <$> ValueHash vm2 x = Some (djb2_bytes (loaded_chars s1)) /\
  string_at vm2 (heap_top vm + 2 * sizeof_uint32_t) = Some (loaded_chars s1) /\
  string_at vm2 (heap_top vm1 + 2 * sizeof_uint32_t)
    = Some (loaded_chars s2) /\
  (strlen s1 < 2 ^ 32 -> loaded_chars s1 = before_nul s1) /\
  (strlen s2 < 2 ^ 32 -> loaded_chars s2 = before_nul s2) /\
  (Z.of_nat (length (loaded_chars s1)) = strlen s1 mod 2 ^ 32).
Proof.
  pose proof (ValueLoadCString_spec vm s1) as H1.
  destruct (ValueLoadCString vm s1) as [x vm1].
  destruct H1 as (-> & Hb1 & _).
  pose proof (ValueLoadCString_spec vm1 s2) as H2.
  destruct (ValueLoadCString vm1 s2) as [y vm2].
  destruct H2 as (-> & Hb2 & Hold).
  set (b1 := block_of 0 (uint32 (strlen s1))
               (memcpy (cleared (uint32 (strlen s1))) s1
                  (uint32 (strlen s1)))) in *.
  set (b2 := block_of 0 (uint32 (strlen s2))
               (memcpy (cleared (uint32 (strlen s2))) s2
                  (uint32 (strlen s2)))) in *.
  assert (vm2 !! heap_top vm = Some b1) as Hb1'
    by (rewrite Hold; [done | by rewrite Hb1]).
  assert (heap_top vm <> heap_top vm1) as Hne
    by (apply allocated_below_top; by rewrite Hb1).
  set (r1 := heap_top vm + 2 * sizeof_uint32_t) in *.
  set (r2 := heap_top vm1 + 2 * sizeof_uint32_t) in *.
  assert (vm2 !! VStringRaw r1 = Some b1) as L1
    by (unfold r1; by rewrite VStringRaw_data).
  assert (vm2 !! VStringRaw r2 = Some b2) as L2
    by (unfold r2; by rewrite VStringRaw_data).
  assert (r1 <> r2) as Hr by (unfold r1, r2; lia).
  assert (chars b1 = loaded_chars s1) as C1 by apply chars_loaded_strlen.
  assert (chars b2 = loaded_chars s2) as C2 by apply chars_loaded_strlen.
  split; [| split; [| split; [| split; [| split; [| split]]]]].
  - destruct (ValueEqual_strings_no_nul vm2 (VString r1) (VString r2) r1 r2
                b1 b2 eq_refl) as (r & vm' & Hv & Hiff);
      try first [done | by left].
    { rewrite C1. apply nul_free_spec, loaded_chars_nul_free. }
    exists r. rewrite Hv. split; [done |]. rewrite <- C1, <- C2.
    split; [| done].
    rewrite (ValueEqual_strings vm2 (VString r1) (VString r2) r1 r2 b1 b2)
      in Hv by first [done | by left].
    injection Hv as <- _. repeat case_match; auto.
  - rewrite <- C1. eapply ValueHash_fst_string; first [done | by left].
  - unfold string_at. by rewrite L1, <- C1.
  - unfold string_at. by rewrite L2, <- C2.
  - apply loaded_chars_short.
  - apply loaded_chars_short.
  - pose proof (uint32_strlen_bounds s1).
    unfold loaded_chars. rewrite length_take. unfold uint32 in *. lia.
Qed.

(** On a short string nothing is cut: what is loaded are the characters
    before the first NUL. *)
Example loaded_chars_hello :
  loaded_chars (list_byte_of_string "hello" ++ x00 :: list_byte_of_string "x")
    = list_byte_of_string "hello".
Proof. reflexivity. Qed.

(** ** Printing numbers and references *)

Lemma before_nul_length_le s : (length (before_nul s) <= length s)%nat.
Proof. unfold before_nul. rewrite length_take. lia. Qed.

Lemma chars_block_strlen h payload :
  chars (block_of h (strlen payload) payload) = before_nul payload.
Proof. done. Qed.

(** X16. The string [NumberToString] makes is the printed form of the
    number cut to its first 19 characters, which is what fits the buffer
    of 20 bytes (and cut at a NUL, should the printer emit one): for a
    printed form without NUL it is exactly the first 19 characters, hence
    the whole printed form whenever that has at most 19 characters. It
    never has more than 19 characters and holds no NUL; its header word is
    zero and its pointer is not null. *)
Theorem NumberToString_bounds (format_17g : Number -> list byte) (vm : VM)
    (n : Number) :
  let '(r, vm') := NumberToString format_17g vm n in
  string_at vm' r = Some (before_nul (take 19 (format_17g n))) /\
  (nul_free (format_17g n) = true ->
     string_at vm' r = Some (take 19 (format_17g n))) /\
  (nul_free (format_17g n) = true ->
   (length (format_17g n) <= 19)%nat ->
     string_at vm' r = Some (format_17g n)) /\
  (length (before_nul (take 19 (format_17g n))) <= 19)%nat /\
  nul_free (before_nul (take 19 (format_17g n))) = true /\
  VStringHash <$> vm' !! VStringRaw r = Some 0 /\
  r <> NULL.
Proof.
  unfold NumberToString, VMAlloc. rewrite VStringRaw_data.
  set (f := format_17g n).
  set (printed := take (Z.to_nat (20 - 1)) f ++ [x00]).
  assert (length printed <= 20)%nat as Hlen
    by (unfold printed; rewrite length_app, length_take; cbn; lia).
  assert (memcpy (cleared 20) printed (Z.of_nat (length printed)) =
          take 19 f ++ x00 :: drop (length printed) (cleared 20)) as Hp.
  { unfold memcpy. rewrite Nat2Z.id, firstn_all. unfold printed.
    by rewrite <- app_assoc. }
  rewrite Hp.
  unfold string_at. rewrite !VStringRaw_data, !lookup_insert_eq.
  cbn [fmap option_fmap option_map].
  rewrite chars_block_strlen, before_nul_app.
  split; [done |].
  split; [intros Hnul; by rewrite (before_nul_id _ (nul_free_take 19 f Hnul)) |].
  split; [intros Hnul Hl;
          by rewrite (before_nul_id _ (nul_free_take 19 f Hnul)),
                     take_ge by lia |].
  split; [pose proof (before_nul_length_le (take 19 f));
          rewrite length_take in *; lia |].
  split; [apply before_nul_nul_free |].
  split; [done | apply data_not_NULL].
Qed.

Example NumberToString_cuts :
  string_at (NumberToString sample_format vm_a_b number_one).2
            (NumberToString sample_format vm_a_b number_one).1
    = Some (list_byte_of_string "-1.2345678901234567").
Proof. vm_compute. reflexivity. Qed.

Lemma hex_value_HEX i : 0 <= i < 16 -> hex_value (HEX i) = i.
Proof.
  intros Hi.
  assert (i = 0 \/ i = 1 \/ i = 2 \/ i = 3 \/ i = 4 \/ i = 5 \/ i = 6 \/
          i = 7 \/ i = 8 \/ i = 9 \/ i = 10 \/ i = 11 \/ i = 12 \/
          i = 13 \/ i = 14 \/ i = 15) as H by lia.
  repeat (destruct H as [-> | H]; [reflexivity |]). by subst.
Qed.

Lemma byte_digits b :
  0 <= b < 256 ->
  16 * hex_value (HEX (Z.shiftr b 4)) + hex_value (HEX (Z.land b 15)) = b.
Proof.
  intros Hb.
  rewrite Z.shiftr_div_pow2 by lia.
  change 15 with (Z.ones 4). rewrite Z.land_ones by lia.
  change (2 ^ 4) with 16.
  pose proof (Z.mod_pos_bound b 16 eq_refl).
  assert (0 <= b / 16 < 16)
    by (split; [apply Z.div_pos; lia | apply Z.div_lt_upper_bound; lia]).
  rewrite !hex_value_HEX by lia.
  pose proof (Z.div_mod b 16). lia.
Qed.

Lemma pointer_of_digits_seq p i n :
  pointer_of_digits
    (flat_map (fun j => let b := pointer_byte p j in
                        [HEX (Z.shiftr b 4); HEX (Z.land b 15)])
       (seq i n))
  = (p / 2 ^ (8 * Z.of_nat i)) mod 2 ^ (8 * Z.of_nat n).
Proof.
  revert i. induction n as [| n IH]; intros i.
  - cbn. by rewrite Z.mod_1_r.
  - cbn [seq flat_map app pointer_of_digits]. rewrite IH.
    rewrite byte_digits by apply Z.mod_pos_bound, eq_refl.
    unfold pointer_byte.
    replace (2 ^ (8 * Z.of_nat (S n))) with (256 * 2 ^ (8 * Z.of_nat n))
      by (rewrite Nat2Z.inj_succ;
          replace (8 * Z.succ (Z.of_nat n)) with (8 + 8 * Z.of_nat n) by lia;
          rewrite Z.pow_add_r by lia; done).
    rewrite Z.rem_mul_r by lia.
    replace (2 ^ (8 * Z.of_nat (S i)))
      with (2 ^ (8 * Z.of_nat i) * 256)
      by (rewrite Nat2Z.inj_succ;
          replace (8 * Z.succ (Z.of_nat i)) with (8 * Z.of_nat i + 8) by lia;
          rewrite Z.pow_add_r by lia; done).
    rewrite <- Z.div_div by lia. done.
Qed.

Lemma pointer_digits_length p : length (pointer_digits p) = 16%nat.
Proof. done. Qed.

(** X17. [StringDescription] writes, after the header, the text
    [<title digits>]: sixteen hexadecimal digits that spell the bytes of
    the pointer, first byte first and high digit first, so that the
    pointer can be read back from them (up to 64 bits). The text fills
    the block exactly and the pointer returned is not null. *)
Theorem StringDescription_text (vm : VM) (title : list byte) (p : pointer) :
  Z.of_nat (length title) + 19 < 2 ^ 32 ->
  let '(r, vm') :=
    StringDescription vm title (Z.of_nat (length title)) p in
  r <> NULL /\
  (exists b,
     vm' !! VStringRaw r = Some b /\
     chars b ++ slack b =
       list_byte_of_string "<" ++ title ++ list_byte_of_string " " ++
       pointer_digits p ++ list_byte_of_string ">") /\
  length (pointer_digits p) = 16%nat /\
  pointer_of_digits (pointer_digits p) = p mod 2 ^ 64.
Proof.
  intros Hlen. unfold StringDescription, VMAlloc.
  rewrite !VStringRaw_data, Nat2Z.id, firstn_all.
  split; [apply data_not_NULL |].
  split.
  - eexists. split; [apply lookup_insert_eq |].
    unfold block_of. cbn [chars slack]. rewrite take_drop.
    unfold memcpy. rewrite Nat2Z.id, firstn_all.
    rewrite drop_ge; [by rewrite app_nil_r |].
    unfold cleared. rewrite repeat_length.
    unfold uint32, sizeof_pointer.
    rewrite Z.mod_small by lia.
    rewrite !length_app, pointer_digits_length. cbn [length list_byte_of_string].
    cbn. lia.
  - split; [done |].
    etransitivity; [apply (pointer_of_digits_seq p 0 8) |].
    change (2 ^ (8 * Z.of_nat 0)) with 1. by rewrite Z.div_1_r.
Qed.

Lemma StringDescription_text_witness :
  pointer_of_digits (pointer_digits 108) = 108 mod 2 ^ 64.
Proof.
  pose proof (StringDescription_text vm_a_b (list_byte_of_string "thread")
                108) as H.
  destruct (StringDescription vm_a_b (list_byte_of_string "thread")
              (Z.of_nat (length (list_byte_of_string "thread"))) 108)
    as [r vm'].
  apply H. cbn. lia.
Defined.

(** ** Printing keeps the headers in order *)

Lemma new_block_hash_zero vm b (vm' : VM) :
  VStringHash b = 0 ->
  heap_ok vm ->
  (forall a, a <> heap_top vm -> vm' !! a = vm !! a) ->
  vm' !! heap_top vm = Some b ->
  heap_ok vm'.
Proof.
  intros Hz Hok Hold Hnew a b' Hb'.
  destruct (decide (a = heap_top vm)) as [-> | Hne].
  - rewrite Hnew in Hb'. injection Hb' as <-. by left.
  - rewrite Hold in Hb' by done. by eapply Hok.
Qed.

(** X18. On a value that is not a reference (nil, a boolean, a number, a
    string or a symbol) [ValueToString] keeps the headers of the memory in
    order: if every header word was zero or the hash of its string before
    the call, the same holds after it. A string it makes is one that was
    not in memory before, and the call itself sets its header word to
    zero. *)
Theorem ValueToString_heap_ok (format_17g : Number -> list byte)
    (vm vm' : VM) (x : Value) (r : pointer) :
  composite (type x) = false ->
  heap_ok vm ->
  ValueToString format_17g vm x = Some (r, vm') ->
  heap_ok vm' /\
  (vm' <> vm ->
     vm !! VStringRaw r = None /\
     VStringHash <$> vm' !! VStringRaw r = Some 0).
Proof.
  intros Hc Hok.
  destruct x as [| b | n | p | p | s | s | p | p | p | p | p | p | p];
    try discriminate Hc;
    cbn [ValueToString type data_boolean data_number data_pointer
         mbind option_bind].
  4, 5: by intros [= <- <-].
  2: destruct b.
  all: unfold LoadCString, NumberToString, VMAlloc;
    rewrite !VStringRaw_data; intros [= <- <-];
    rewrite !VStringRaw_data;
    (split; [| intros _; split;
               [apply heap_top_fresh | by rewrite lookup_insert_eq]]);
    (eapply (new_block_hash_zero vm);
       [| done | intros a Ha; by rewrite !lookup_insert_ne
        | apply lookup_insert_eq]); done.
Qed.

Lemma vm_hi_a_heap_ok : heap_ok vm_hi_a.
Proof.
  intros a b. unfold vm_hi_a.
  rewrite lookup_insert. case_decide; [intros [= <-]; by right |].
  rewrite lookup_insert. case_decide; [intros [= <-]; by left |].
  by rewrite lookup_empty.
Qed.

Lemma ValueToString_heap_ok_witness :
  heap_ok (NumberToString sample_format vm_hi_a number_one).2 /\
  VStringHash <$> vm_hi_a !! 100 = Some 5863446.
Proof.
  split; [| reflexivity].
  apply (ValueToString_heap_ok sample_format vm_hi_a _ (VNumber number_one)
           (NumberToString sample_format vm_hi_a number_one).1).
  - reflexivity.
  - apply vm_hi_a_heap_ok.
  - reflexivity.
Defined.
